(** * The troubleshooting flow extension (src/index.tsx)

    A shallow embedding of the component's data, of its traversal logic
    ([TroubleshootingStep], [FlowView]), of the persistence and editor
    handlers ([loadData], [handleSave], [handleSubmit]) and of the two
    runtime functions they rest on, [JSON.parse] and [JSON.stringify]. *)

From Stdlib Require Import List NArith Ascii String Bool Arith Lia.
Import ListNotations.

Local Open Scope N_scope.

(* ------------------------------------------------------------------ *)
(** * JavaScript strings *)

(** A JavaScript string is a sequence of UTF-16 code units. *)
Definition jsstring := list N.

(** The code units of an ASCII literal of the source. *)
Definition str (s : string) : jsstring :=
  map N_of_ascii (list_ascii_of_string s).

Arguments str s%_string.

Fixpoint jsstring_eqb (a b : jsstring) : bool :=
  match a, b with
  | [], [] => true
  | x :: a', y :: b' => (x =? y) && jsstring_eqb a' b'
  | _, _ => false
  end.

Definition mem_string (k : jsstring) (l : list jsstring) : bool :=
  existsb (jsstring_eqb k) l.

(** [ToBoolean] on a string: only the empty string is falsy. *)
Definition truthy_string (s : jsstring) : bool :=
  match s with
  | [] => false
  | _ :: _ => true
  end.

(** [ToBoolean] on a [string | null] or [string | undefined]. *)
Definition truthy (o : option jsstring) : bool :=
  match o with
  | Some s => truthy_string s
  | None => false
  end.

(** [match_literal p s]: the rest of [s] after the literal [p] when [s]
    starts with it.  This is the match of the regular expression [/^p/]
    for a pattern [p] without metacharacters; without the [m] flag the
    anchor only matches at the start of the input. *)
Fixpoint match_literal (p s : jsstring) : option jsstring :=
  match p with
  | [] => Some s
  | c :: p' =>
      match s with
      | [] => None
      | d :: s' => if c =? d then match_literal p' s' else None
      end
  end.

(** [text.replace(/^Solution: /, "")]: a regular expression without the
    [g] flag replaces its first match only, here by the empty string. *)
Definition replace_Solution_prefix (text : jsstring) : jsstring :=
  match match_literal (str "Solution: ") text with
  | Some rest => rest
  | None => text
  end.

(* ------------------------------------------------------------------ *)
(** * The data of a flow (lines 5-15) *)

Record Answer := mkAnswer {
  text : jsstring;
  nextId : option jsstring;      (* [string | null] *)
  icon : option jsstring         (* optional property *)
}.

Record TroubleshootingStepData := mkStep {
  id : jsstring;
  question : jsstring;
  answers : list Answer
}.

(** [Record<string, TroubleshootingStepData>]: the own properties of the
    object, in property order. *)
Definition TroubleshootingData := list (jsstring * TroubleshootingStepData).

Local Open Scope string_scope.

Definition answer (t : string) (n : option string) (i : string) : Answer :=
  mkAnswer (str t) (option_map str n) (Some (str i)).

Definition step (k q : string) (a : list Answer)
  : jsstring * TroubleshootingStepData :=
  (str k, mkStep (str k) (str q) a).

Definition initialTroubleshootingData : TroubleshootingData :=
  [ step "start" "What is the problem with the process?"
      [ answer "It's not starting" (Some "not-starting") "Play";
        answer "It's running slow" (Some "running-slow") "Gauge";
        answer "It crashed" (Some "crashed") "XMarkCircle" ];
    step "not-starting" "Have you checked the logs for startup errors?"
      [ answer "Yes, there are errors" (Some "log-errors") "Document";
        answer "No, where are the logs?" (Some "find-logs") "QuestionMark";
        answer "There are no logs at all" (Some "no-logs") "ExclamationMark" ];
    step "running-slow" "Is the CPU usage high?"
      [ answer "Yes, CPU is at 100%" (Some "high-cpu") "ComputerChip";
        answer "No, CPU is normal" (Some "normal-cpu") "Leaf" ];
    step "crashed" "Was there a crash report generated?"
      [ answer "Yes, I have the report" (Some "submit-report") "Upload";
        answer "No, it just disappeared" (Some "check-system-logs") "Terminal" ];
    step "log-errors" "Common errors include 'Permission Denied' or 'Port in Use'."
      [ answer "Solution: Check file permissions or kill the process on that port."
          None "Wrench" ];
    step "find-logs" "Logs are usually in /var/log/ or the application's own directory."
      [ answer "Okay, I'll check there." None "Check" ];
    step "no-logs" "This might indicate a problem with file permissions for the log directory."
      [ answer "Solution: Verify the process has write access to its log location."
          None "Wrench" ];
    step "high-cpu" "This could be an infinite loop or heavy processing."
      [ answer "Solution: Use a profiler to inspect the process." None "Wrench" ];
    step "normal-cpu" "The bottleneck might be I/O (disk or network)."
      [ answer "Solution: Check disk activity and network requests." None "Wrench" ];
    step "submit-report" "Please submit the crash report to the development team."
      [ answer "Done!" None "Check" ];
    step "check-system-logs" "Check the main system logs for any related error messages."
      [ answer "Okay, I'll check system logs." None "Check" ] ].

Local Close Scope string_scope.

(* ------------------------------------------------------------------ *)
(** * Property reads *)

(** The result of reading [o[k]] on an ordinary object whose own
    properties hold values of type [A]. *)
Inductive PropertyRead (A : Type) : Type :=
| OwnProperty (a : A)
| InheritedMember
| Undefined.

Arguments OwnProperty {A} a.
Arguments InheritedMember {A}.
Arguments Undefined {A}.

(** The property names of [Object.prototype], the prototype of every object
    made by an object literal or by [JSON.parse].  Each of them reads as a
    function, and ["__proto__"] as the prototype object itself: a truthy
    value that has none of the properties of a step. *)
Definition Object_prototype_keys : list jsstring :=
  map str
    [ "constructor"; "__defineGetter__"; "__defineSetter__"; "hasOwnProperty";
      "__lookupGetter__"; "__lookupSetter__"; "isPrototypeOf";
      "propertyIsEnumerable"; "toString"; "valueOf"; "__proto__";
      "toLocaleString" ]%string.

Fixpoint own_property {A : Type} (k : jsstring) (o : list (jsstring * A))
  : option A :=
  match o with
  | [] => None
  | (k', a) :: o' => if jsstring_eqb k k' then Some a else own_property k o'
  end.

(** [o[k]]: the own property, else what the prototype chain gives. *)
Definition Get {A : Type} (o : list (jsstring * A)) (k : jsstring)
  : PropertyRead A :=
  match own_property k o with
  | Some a => OwnProperty a
  | None =>
      if mem_string k Object_prototype_keys then InheritedMember else Undefined
  end.

(* ------------------------------------------------------------------ *)
(** * The flow view (lines 128-148 and 189-237) *)

(** The child of an item's [ActionPanel]. *)
Inductive Action : Type :=
| Action_Push (stepId : jsstring)
| Action_CopyToClipboard (content : jsstring).

(** Lines 213-230: the action offered for an answer; the spec calls this
    decision [selectAnswer]. *)
Definition selectAnswer (a : Answer) : Action :=
  match nextId a with
  | Some n =>
      if truthy_string n then Action_Push n
      else Action_CopyToClipboard (replace_Solution_prefix (text a))
  | None => Action_CopyToClipboard (replace_Solution_prefix (text a))
  end.

Section Presentation.

(** The host's [Icon] table is not part of the repository: a read
    [Icon[name]] is taken as given, with whatever the table inherits;
    [None] stands for a falsy result ([undefined], nothing under that
    name). *)
Variable IconValue : Type.
Variable Icon : jsstring -> option IconValue.
Variable Icon_ChevronRight : IconValue.

(** Line 210:
    [answer.icon ? (Icon[answer.icon] || Icon.ChevronRight) : Icon.ChevronRight];
    the spec calls this lookup [symbolFor]. *)
Definition symbolFor (name : option jsstring) : IconValue :=
  match name with
  | Some n =>
      if truthy_string n then
        match Icon n with
        | Some v => v
        | None => Icon_ChevronRight
        end
      else Icon_ChevronRight
  | None => Icon_ChevronRight
  end.

Record ListItem := mkItem {
  title : jsstring;
  item_icon : IconValue;
  actions : Action
}.

Inductive Element : Type :=
| List_isLoading
| List_EmptyView (title description : jsstring)
| List_Items (navigationTitle searchBarPlaceholder : jsstring)
             (items : list ListItem).

(** What a render does: it returns an element, or a [TypeError] is
    thrown out of it. *)
Inductive Render : Type :=
| Returns (e : Element)
| Throws_TypeError.

Definition List_Item (a : Answer) : ListItem :=
  mkItem (text a) (symbolFor (icon a)) (selectAnswer a).

(** Lines 189-237.  When [troubleshootingData[stepId]] is a member of
    [Object.prototype] it passes the [!currentStep] test, its [answers]
    is [undefined], and [currentStep.answers.map] throws. *)
Definition TroubleshootingStep (stepId : jsstring)
    (troubleshootingData : TroubleshootingData) (isLoading : bool) : Render :=
  let currentStep := Get troubleshootingData stepId in
  if isLoading then Returns List_isLoading
  else
    match currentStep with
    | Undefined =>
        Returns (List_EmptyView (str "End of Flow")
                                (str "You've reached a final step."))
    | InheritedMember => Throws_TypeError
    | OwnProperty st =>
        Returns (List_Items (question st) (str "Select an answer")
                            (map List_Item (answers st)))
    end.

(** The spec's [currentStep(graph, stepId)]: the render of a step once
    loading is over, as in every pushed frame (line 220). *)
Definition currentStep (g : TroubleshootingData) (stepId : jsstring) : Render :=
  TroubleshootingStep stepId g false.

(** Lines 128-148. *)
Definition FlowView (isLoading : bool)
    (troubleshootingData : TroubleshootingData) : Render :=
  let startStepId := str "start" in
  match Get troubleshootingData startStepId, isLoading with
  | Undefined, false =>
      Returns (List_EmptyView (str "Invalid Flow Data")
        (str "Could not find a 'start' step. Check your data in the editor."))
  | _, _ => TroubleshootingStep startStepId troubleshootingData isLoading
  end.

(** The target of an [Action.Push]: the step rendered in the new frame. *)
Definition Push_target (troubleshootingData : TroubleshootingData)
    (a : Action) : option Render :=
  match a with
  | Action_Push n => Some (currentStep troubleshootingData n)
  | Action_CopyToClipboard _ => None
  end.

End Presentation.

Arguments symbolFor {IconValue} Icon Icon_ChevronRight name.
Arguments mkItem {IconValue} title item_icon actions.
Arguments List_Item {IconValue} Icon Icon_ChevronRight a.
Arguments TroubleshootingStep {IconValue} Icon Icon_ChevronRight
  stepId troubleshootingData isLoading.
Arguments currentStep {IconValue} Icon Icon_ChevronRight g stepId.
Arguments FlowView {IconValue} Icon Icon_ChevronRight
  isLoading troubleshootingData.
Arguments Push_target {IconValue} Icon Icon_ChevronRight troubleshootingData a.
Arguments title {IconValue} _.
Arguments item_icon {IconValue} _.
Arguments actions {IconValue} _.
Arguments List_isLoading {IconValue}.
Arguments List_EmptyView {IconValue} _ _.
Arguments List_Items {IconValue} _ _ _.
Arguments Returns {IconValue} _.
Arguments Throws_TypeError {IconValue}.

(* ------------------------------------------------------------------ *)
(** * JSON values and ordinary objects *)

Unset Elimination Schemes.

(** The values [JSON.parse] produces.  A number is an IEEE double in
    JavaScript; no field of a flow is numeric and nothing in the component
    reads a number, so a number is kept as the literal it was read from,
    and written back as that literal.  The round trip below is stated for
    values without numbers. *)
Inductive value : Type :=
| JNull
| JBool (b : bool)
| JNumber (literal : jsstring)
| JString (s : jsstring)
| JArray (elements : list value)
| JObject (properties : list (jsstring * value)).

Set Elimination Schemes.

Definition is_digit (c : N) : bool := (48 <=? c) && (c <=? 57).

Fixpoint decimal_value (acc : N) (ds : jsstring) : N :=
  match ds with
  | [] => acc
  | d :: ds' => decimal_value (10 * acc + (d - 48)) ds'
  end.

(** An array index is a property name that is the canonical decimal
    numeral of an integer from 0 to 2^32 - 2. *)
Definition array_index (k : jsstring) : option N :=
  match k with
  | [] => None
  | c :: k' =>
      if forallb is_digit k && (List.length k <=? 10)%nat
         && (negb (c =? 48) || match k' with [] => true | _ => false end)
      then
        let n := decimal_value 0 k in
        if n <=? 4294967294 then Some n else None
      else None
  end.

Definition has_own_property {A : Type} (k : jsstring)
    (o : list (jsstring * A)) : bool :=
  existsb (fun p => jsstring_eqb k (fst p)) o.

Fixpoint set_own_property {A : Type} (k : jsstring) (a : A)
    (o : list (jsstring * A)) : list (jsstring * A) :=
  match o with
  | [] => []
  | (k', a') :: o' =>
      if jsstring_eqb k k' then (k', a) :: o'
      else (k', a') :: set_own_property k a o'
  end.

Fixpoint add_index_property {A : Type} (i : N) (k : jsstring) (a : A)
    (o : list (jsstring * A)) : list (jsstring * A) :=
  match o with
  | [] => [(k, a)]
  | (k', a') :: o' =>
      match array_index k' with
      | Some j =>
          if j <? i then (k', a') :: add_index_property i k a o'
          else (k, a) :: o
      | None => (k, a) :: o
      end
  end.

(** [CreateDataProperty(o, k, a)] on an ordinary object: an existing
    property keeps its place and takes the new value; a new array index
    goes among the array indices in ascending order, any other new name
    goes last ([OrdinaryOwnPropertyKeys]). *)
Definition CreateDataProperty {A : Type} (o : list (jsstring * A))
    (k : jsstring) (a : A) : list (jsstring * A) :=
  if has_own_property k o then set_own_property k a o
  else
    match array_index k with
    | Some i => add_index_property i k a o
    | None => o ++ [(k, a)]
    end.

(** [precedes k k']: the name [k] may come before the name [k'] in the
    property order of an ordinary object: array indices first, in ascending
    order, then the other names, none of them twice. *)
Definition precedes (k k' : jsstring) : bool :=
  match array_index k, array_index k' with
  | Some i, Some j => i <? j
  | Some _, None => true
  | None, Some _ => false
  | None, None => negb (jsstring_eqb k k')
  end.

(** The property order every ordinary object has ([OrdinaryOwnPropertyKeys]). *)
Fixpoint property_order (ks : list jsstring) : bool :=
  match ks with
  | [] => true
  | k :: ks' => forallb (precedes k) ks' && property_order ks'
  end.

(** [plain v]: every object inside [v] has the property order of an ordinary
    object, and [v] holds no number. *)
Fixpoint plain (v : value) : bool :=
  match v with
  | JNull => true
  | JBool _ => true
  | JNumber _ => false
  | JString _ => true
  | JArray l => forallb plain l
  | JObject ps =>
      property_order (map fst ps) && forallb (fun p => plain (snd p)) ps
  end.

(** [ordered v]: every object inside [v] has the property order of an
    ordinary object. *)
Fixpoint ordered (v : value) : bool :=
  match v with
  | JArray l => forallb ordered l
  | JObject ps =>
      property_order (map fst ps) && forallb (fun p => ordered (snd p)) ps
  | _ => true
  end.

(** The number of nested calls the parser makes to read a value back. *)
Fixpoint nesting_cost (v : value) : nat :=
  match v with
  | JArray l => S (fold_right (fun x n => S (nesting_cost x + n)) 0%nat l)
  | JObject ps =>
      S (fold_right (fun p n => S (nesting_cost (snd p) + n)) 0%nat ps)
  | _ => 1%nat
  end.

(** The object a flow is at run time. *)
Definition Answer_value (a : Answer) : value :=
  JObject
    ([ (str "text", JString (text a));
       (str "nextId", match nextId a with
                      | Some n => JString n
                      | None => JNull
                      end) ]
     ++ match icon a with
        | Some i => [ (str "icon", JString i) ]
        | None => []
        end).

Definition Step_value (st : TroubleshootingStepData) : value :=
  JObject
    [ (str "id", JString (id st));
      (str "question", JString (question st));
      (str "answers", JArray (map Answer_value (answers st))) ].

Definition Data_value (g : TroubleshootingData) : value :=
  JObject (map (fun p => (fst p, Step_value (snd p))) g).

(* ------------------------------------------------------------------ *)
(** * JSON.stringify *)

(** Code units that occur below: 9 tab, 10 line feed, 13 carriage return,
    32 space, 34 quotation mark, 44 comma, 45 minus, 46 point, 47 slash,
    48 to 57 the digits, 58 colon, 91 and 93 the square brackets,
    92 backslash, 117 the letter u, 123 and 125 the curly brackets. *)

Definition hex_digit (d : N) : N := if d <? 10 then 48 + d else 87 + d.

(** [UnicodeEscape]: a backslash, [u] and four lower-case hexadecimal digits. *)
Definition UnicodeEscape (c : N) : jsstring :=
  [ 92; 117; hex_digit (c / 4096 mod 16); hex_digit (c / 256 mod 16);
    hex_digit (c / 16 mod 16); hex_digit (c mod 16) ].

Definition is_leading_surrogate (c : N) : bool := (55296 <=? c) && (c <=? 56319).
Definition is_trailing_surrogate (c : N) : bool := (56320 <=? c) && (c <=? 57343).

(** One code unit that is not the first half of a surrogate pair. *)
Definition quote_unit (c : N) : jsstring :=
  if c =? 8 then [92; 98]
  else if c =? 9 then [92; 116]
  else if c =? 10 then [92; 110]
  else if c =? 12 then [92; 102]
  else if c =? 13 then [92; 114]
  else if c =? 34 then [92; 34]
  else if c =? 92 then [92; 92]
  else if (c <? 32) || is_leading_surrogate c || is_trailing_surrogate c
       then UnicodeEscape c
  else [c].

Fixpoint quote_units (s : jsstring) : jsstring :=
  match s with
  | [] => []
  | c :: s' =>
      if is_leading_surrogate c then
        match s' with
        | d :: s'' =>
            if is_trailing_surrogate d then c :: d :: quote_units s''
            else quote_unit c ++ quote_units s'
        | [] => quote_unit c
        end
      else quote_unit c ++ quote_units s'
  end.

Definition QuoteJSONString (s : jsstring) : jsstring :=
  34 :: quote_units s ++ [34].

Fixpoint join (sep : jsstring) (l : list jsstring) : jsstring :=
  match l with
  | [] => []
  | [x] => x
  | x :: l' => x ++ sep ++ join sep l'
  end.

(** The line break before an element, a member or a closing bracket:
    nothing when the gap is empty. *)
Definition line_break (gap indent : jsstring) : jsstring :=
  match gap with
  | [] => []
  | _ :: _ => 10 :: indent
  end.

(** [SerializeJSONArray] and [SerializeJSONObject] once the elements or
    members are serialized. *)
Definition wrap (open close : N) (gap stepback indent : jsstring)
    (partial : list jsstring) : jsstring :=
  match partial with
  | [] => [open; close]
  | _ =>
      match gap with
      | [] => open :: join [44] partial ++ [close]
      | _ =>
          open :: 10 :: indent ++ join (44 :: 10 :: indent) partial
               ++ 10 :: stepback ++ [close]
      end
  end.

Definition member (gap : jsstring) (k strP : jsstring) : jsstring :=
  QuoteJSONString k ++ 58 :: match gap with [] => [] | _ => [32] end ++ strP.

(** [SerializeJSONProperty].  For a number the text given here is the
    literal the number was read from, which is not in general what
    [JSON.stringify] writes for it (1.0 is written 1, 1e999 null); what is
    said below of a written text is said of values without numbers. *)
Fixpoint SerializeJSONProperty (gap indent : jsstring) (v : value) : jsstring :=
  match v with
  | JNull => str "null"
  | JBool true => str "true"
  | JBool false => str "false"
  | JNumber literal => literal
  | JString s => QuoteJSONString s
  | JArray l =>
      wrap 91 93 gap indent (indent ++ gap)
        (map (SerializeJSONProperty gap (indent ++ gap)) l)
  | JObject ps =>
      wrap 123 125 gap indent (indent ++ gap)
        (map (fun p => member gap (fst p)
                         (SerializeJSONProperty gap (indent ++ gap) (snd p))) ps)
  end.

(** [JSON.stringify(v, null, space)] for a number [space]; [JSON.stringify(v)]
    is the case [space = 0]. *)
Definition JSON_stringify (space : nat) (v : value) : jsstring :=
  SerializeJSONProperty (repeat 32 (Nat.min space 10)) [] v.

(* ------------------------------------------------------------------ *)
(** * JSON.parse *)

Inductive parsed (A : Type) : Type :=
| Parsed (a : A) (rest : jsstring)
| SyntaxError
| OutOfFuel.

Arguments Parsed {A} a rest.
Arguments SyntaxError {A}.
Arguments OutOfFuel {A}.

Definition is_ws (c : N) : bool :=
  (c =? 9) || (c =? 10) || (c =? 13) || (c =? 32).

Fixpoint skip_ws (s : jsstring) : jsstring :=
  match s with
  | c :: s' => if is_ws c then skip_ws s' else s
  | [] => []
  end.

Definition hex_value (c : N) : option N :=
  if is_digit c then Some (c - 48)
  else if (97 <=? c) && (c <=? 102) then Some (c - 87)
  else if (65 <=? c) && (c <=? 70) then Some (c - 55)
  else None.

Definition hex4 (a b c d : N) : option N :=
  match hex_value a, hex_value b, hex_value c, hex_value d with
  | Some x, Some y, Some z, Some w => Some (((x * 16 + y) * 16 + z) * 16 + w)
  | _, _, _, _ => None
  end.

Definition escape_char (e : N) : option N :=
  if e =? 34 then Some 34
  else if e =? 92 then Some 92
  else if e =? 47 then Some 47
  else if e =? 98 then Some 8
  else if e =? 102 then Some 12
  else if e =? 110 then Some 10
  else if e =? 114 then Some 13
  else if e =? 116 then Some 9
  else None.

Definition cons_unit (c : N) (r : option (jsstring * jsstring))
  : option (jsstring * jsstring) :=
  match r with
  | Some (s, rest) => Some (c :: s, rest)
  | None => None
  end.

(** The characters of a string literal after its opening quote, up to and
    including the closing quote. *)
Fixpoint parse_chars (s : jsstring) : option (jsstring * jsstring) :=
  match s with
  | [] => None
  | c :: s' =>
      if c =? 34 then Some ([], s')
      else if c =? 92 then
        match s' with
        | [] => None
        | e :: s'' =>
            if e =? 117 then
              match s'' with
              | h1 :: h2 :: h3 :: h4 :: s4 =>
                  match hex4 h1 h2 h3 h4 with
                  | Some u => cons_unit u (parse_chars s4)
                  | None => None
                  end
              | _ => None
              end
            else
              match escape_char e with
              | Some u => cons_unit u (parse_chars s'')
              | None => None
              end
        end
      else if c <? 32 then None
      else cons_unit c (parse_chars s')
  end.

Fixpoint span_digits (s : jsstring) : jsstring * jsstring :=
  match s with
  | c :: s' =>
      if is_digit c then let (ds, r) := span_digits s' in (c :: ds, r)
      else ([], s)
  | [] => ([], [])
  end.

(** A number literal: an optional minus sign; 0, or a digit from 1 to 9 and
    any digits; optionally a point and one digit or more; optionally e or E,
    an optional sign and one digit or more. *)
Definition lex_int (s : jsstring) : option (jsstring * jsstring) :=
  match s with
  | c :: r =>
      if c =? 48 then Some ([48], r)
      else if is_digit c then let (ds, r') := span_digits r in Some (c :: ds, r')
      else None
  | [] => None
  end.

Definition lex_frac (s : jsstring) : option (jsstring * jsstring) :=
  match s with
  | c :: r =>
      if c =? 46 then
        match span_digits r with
        | ([], _) => None
        | (ds, r') => Some (c :: ds, r')
        end
      else Some ([], s)
  | [] => Some ([], s)
  end.

Definition lex_sign (s : jsstring) : jsstring * jsstring :=
  match s with
  | c :: r => if (c =? 43) || (c =? 45) then ([c], r) else ([], s)
  | [] => ([], s)
  end.

Definition lex_exp (s : jsstring) : option (jsstring * jsstring) :=
  match s with
  | c :: r =>
      if (c =? 101) || (c =? 69) then
        let (sg, r1) := lex_sign r in
        match span_digits r1 with
        | ([], _) => None
        | (ds, r2) => Some (c :: sg ++ ds, r2)
        end
      else Some ([], s)
  | [] => Some ([], s)
  end.

Definition lex_minus (s : jsstring) : jsstring * jsstring :=
  match s with
  | c :: r => if c =? 45 then ([c], r) else ([], s)
  | [] => ([], s)
  end.

Definition lex_number (s : jsstring) : option (jsstring * jsstring) :=
  let (sg, r0) := lex_minus s in
  match lex_int r0 with
  | None => None
  | Some (i, r1) =>
      match lex_frac r1 with
      | None => None
      | Some (f, r2) =>
          match lex_exp r2 with
          | None => None
          | Some (e, r3) => Some (sg ++ i ++ f ++ e, r3)
          end
      end
  end.

Definition keyword (w : string) (v : value) (s : jsstring) : parsed value :=
  match match_literal (str w) s with
  | Some r => Parsed v r
  | None => SyntaxError
  end.

Arguments keyword w%_string v s.

(** The rest of [s] after the code unit [c], when [s] starts with it. *)
Definition starts_with (c : N) (s : jsstring) : option jsstring :=
  match s with
  | d :: r => if d =? c then Some r else None
  | [] => None
  end.

(** Recursive descent over the JSON grammar.  [fuel] bounds the number of
    nested calls; [JSON_parse] gives enough of it for any text. *)
Fixpoint parse_value (fuel : nat) (s : jsstring) : parsed value :=
  match fuel with
  | O => OutOfFuel
  | S fuel' =>
      match skip_ws s with
      | [] => SyntaxError
      | c :: r =>
          if c =? 123 then
            match starts_with 125 (skip_ws r) with
            | Some r' => Parsed (JObject []) r'
            | None =>
                match parse_members fuel' r with
                | Parsed ms r' =>
                    Parsed (JObject (fold_left
                              (fun o p => CreateDataProperty o (fst p) (snd p))
                              ms [])) r'
                | SyntaxError => SyntaxError
                | OutOfFuel => OutOfFuel
                end
            end
          else if c =? 91 then
            match starts_with 93 (skip_ws r) with
            | Some r' => Parsed (JArray []) r'
            | None =>
                match parse_elements fuel' r with
                | Parsed vs r' => Parsed (JArray vs) r'
                | SyntaxError => SyntaxError
                | OutOfFuel => OutOfFuel
                end
            end
          else if c =? 34 then
            match parse_chars r with
            | Some (x, r') => Parsed (JString x) r'
            | None => SyntaxError
            end
          else if c =? 116 then keyword "true" (JBool true) (c :: r)
          else if c =? 102 then keyword "false" (JBool false) (c :: r)
          else if c =? 110 then keyword "null" JNull (c :: r)
          else
            match lex_number (c :: r) with
            | Some (l, r') => Parsed (JNumber l) r'
            | None => SyntaxError
            end
      end
  end

with parse_elements (fuel : nat) (s : jsstring) : parsed (list value) :=
  match fuel with
  | O => OutOfFuel
  | S fuel' =>
      match parse_value fuel' s with
      | Parsed v r =>
          match skip_ws r with
          | c :: r' =>
              if c =? 93 then Parsed [v] r'
              else if c =? 44 then
                match parse_elements fuel' r' with
                | Parsed vs r'' => Parsed (v :: vs) r''
                | SyntaxError => SyntaxError
                | OutOfFuel => OutOfFuel
                end
              else SyntaxError
          | [] => SyntaxError
          end
      | SyntaxError => SyntaxError
      | OutOfFuel => OutOfFuel
      end
  end

with parse_members (fuel : nat) (s : jsstring)
  : parsed (list (jsstring * value)) :=
  match fuel with
  | O => OutOfFuel
  | S fuel' =>
      match starts_with 34 (skip_ws s) with
      | Some r =>
          match parse_chars r with
          | Some (k, r1) =>
              match starts_with 58 (skip_ws r1) with
              | Some r2 =>
                  match parse_value fuel' r2 with
                  | Parsed v r3 =>
                      match skip_ws r3 with
                      | c :: r4 =>
                          if c =? 125 then Parsed [(k, v)] r4
                          else if c =? 44 then
                            match parse_members fuel' r4 with
                            | Parsed ms r5 => Parsed ((k, v) :: ms) r5
                            | SyntaxError => SyntaxError
                            | OutOfFuel => OutOfFuel
                            end
                          else SyntaxError
                      | [] => SyntaxError
                      end
                  | SyntaxError => SyntaxError
                  | OutOfFuel => OutOfFuel
                  end
              | None => SyntaxError
              end
          | None => SyntaxError
          end
      | None => SyntaxError
      end
  end.

(** [JSON.parse(text)]: [None] when a [SyntaxError] is thrown. *)
Definition JSON_parse (text : jsstring) : option value :=
  match parse_value (2 * List.length text + 2) text with
  | Parsed v r =>
      match skip_ws r with
      | [] => Some v
      | _ :: _ => None
      end
  | SyntaxError => None
  | OutOfFuel => None
  end.

(** ** What the round trip is proved through *)

(** A code unit that is neither white space nor a closing bracket. *)
Definition opens (c : N) : Prop :=
  is_ws c = false /\ c <> 93 /\ c <> 125.

(** The parser reads the serialization of [v] back, whatever follows it,
    with fuel for the nesting of [v]. *)
Definition reads_back (gap : jsstring) (v : value) : Prop :=
  plain v = true ->
  forall (indent rest : jsstring) (fuel : nat),
    forallb is_ws indent = true ->
    (nesting_cost v <= fuel)%nat ->
    parse_value fuel (SerializeJSONProperty gap indent v ++ rest)
    = Parsed v rest.

(* ------------------------------------------------------------------ *)
(** * The host: storage, notifications, navigation *)

Inductive Error : Type :=
| Error_SyntaxError        (* thrown by [JSON.parse] *)
| Error_LocalStorage.      (* a rejected [LocalStorage] call *)

Inductive ToastStyle : Type :=
| Toast_Success
| Toast_Failure.

Record Toast := mkToast {
  style : ToastStyle;
  toast_title : jsstring;
  message : jsstring
}.

(** The item ["troubleshootingData"] of [LocalStorage], the only one the
    component uses, and whether the host lets a read or a write through. *)
Record LocalStorage := mkStorage {
  item : option jsstring;
  getItem_rejects : bool;
  setItem_rejects : bool
}.

(** The state of [Command] (lines 70-72) and what the host holds.  The
    state [troubleshootingData] has its type by an unchecked cast (line 98):
    it holds whatever [JSON.parse] returned. *)
Record World := mkWorld {
  activeTab : jsstring;
  isLoading : bool;
  troubleshootingData : value;
  storage : LocalStorage;
  toasts : list Toast;              (* [showToast] calls, oldest first *)
  console_errors : list jsstring;   (* [console.error] calls, oldest first *)
  pops : nat;                       (* [pop()] calls *)
  unhandled_rejections : list Error;(* rejected promises nobody awaits *)
  form_jsonData : jsstring          (* the text in the editor's field *)
}.

(** How a statement completes. *)
Inductive Completion (A : Type) : Type :=
| Normal (a : A)
| Throw (e : Error).

Arguments Normal {A} a.
Arguments Throw {A} e.

Definition M (A : Type) : Type := World -> Completion A * World.

Definition ret {A : Type} (a : A) : M A := fun w => (Normal a, w).

Definition throw {A : Type} (e : Error) : M A := fun w => (Throw e, w).

Definition bind {A B : Type} (m : M A) (k : A -> M B) : M B :=
  fun w =>
    match m w with
    | (Normal a, w') => k a w'
    | (Throw e, w') => (Throw e, w')
    end.

Declare Scope js_scope.
Delimit Scope js_scope with js.

Notation "x <- m ;; k" := (bind m (fun x => k))
  (at level 61, m at next level, right associativity) : js_scope.
Notation "m ;; k" := (bind m (fun _ => k))
  (at level 61, right associativity) : js_scope.

(** [try { body } catch (error) { handler error }]. *)
Definition try_catch {A : Type} (body : M A) (handler : Error -> M A) : M A :=
  fun w =>
    match body w with
    | (Normal a, w') => (Normal a, w')
    | (Throw e, w') => handler e w'
    end.

(** [try { body } finally { final }]. *)
Definition try_finally {A : Type} (body : M A) (final : M unit) : M A :=
  fun w =>
    match body w with
    | (c, w') =>
        match final w' with
        | (Normal _, w'') => (c, w'')
        | (Throw e, w'') => (Throw e, w'')
        end
    end.

(** A call of an [async] function whose promise is dropped: the call itself
    completes normally, and a rejection is left unhandled.  The effects of
    the callee are run to their end here; the caller's later effects touch
    other fields of the world, so their order against the callee's
    continuation does not show. *)
Definition not_awaited (m : M unit) : M unit :=
  fun w =>
    match m w with
    | (Normal _, w') => (Normal tt, w')
    | (Throw e, w') =>
        (Normal tt,
         mkWorld (activeTab w') (isLoading w') (troubleshootingData w')
                 (storage w') (toasts w') (console_errors w') (pops w')
                 (unhandled_rejections w' ++ [e]) (form_jsonData w'))
    end.

Definition setActiveTab (t : jsstring) : M unit :=
  fun w =>
    (Normal tt,
     mkWorld t (isLoading w) (troubleshootingData w) (storage w) (toasts w)
             (console_errors w) (pops w) (unhandled_rejections w)
             (form_jsonData w)).

Definition setIsLoading (b : bool) : M unit :=
  fun w =>
    (Normal tt,
     mkWorld (activeTab w) b (troubleshootingData w) (storage w) (toasts w)
             (console_errors w) (pops w) (unhandled_rejections w)
             (form_jsonData w)).

Definition setTroubleshootingData (v : value) : M unit :=
  fun w =>
    (Normal tt,
     mkWorld (activeTab w) (isLoading w) v (storage w) (toasts w)
             (console_errors w) (pops w) (unhandled_rejections w)
             (form_jsonData w)).

Definition showToast (st : ToastStyle) (t m : string) : M unit :=
  fun w =>
    (Normal tt,
     mkWorld (activeTab w) (isLoading w) (troubleshootingData w) (storage w)
             (toasts w ++ [mkToast st (str t) (str m)])
             (console_errors w) (pops w) (unhandled_rejections w)
             (form_jsonData w)).

Arguments showToast st (t m)%_string.

Definition console_error (m : string) : M unit :=
  fun w =>
    (Normal tt,
     mkWorld (activeTab w) (isLoading w) (troubleshootingData w) (storage w)
             (toasts w) (console_errors w ++ [str m]) (pops w)
             (unhandled_rejections w) (form_jsonData w)).

Arguments console_error m%_string.

Definition pop : M unit :=
  fun w =>
    (Normal tt,
     mkWorld (activeTab w) (isLoading w) (troubleshootingData w) (storage w)
             (toasts w) (console_errors w) (S (pops w))
             (unhandled_rejections w) (form_jsonData w)).

(** [await LocalStorage.getItem("troubleshootingData")]. *)
Definition LocalStorage_getItem : M (option jsstring) :=
  fun w =>
    if getItem_rejects (storage w) then (Throw Error_LocalStorage, w)
    else (Normal (item (storage w)), w).

(** [await LocalStorage.setItem("troubleshootingData", t)]: a rejected
    write leaves the item as it was. *)
Definition LocalStorage_setItem (t : jsstring) : M unit :=
  fun w =>
    if setItem_rejects (storage w) then (Throw Error_LocalStorage, w)
    else
      (Normal tt,
       mkWorld (activeTab w) (isLoading w) (troubleshootingData w)
               (mkStorage (Some t) (getItem_rejects (storage w))
                          (setItem_rejects (storage w)))
               (toasts w) (console_errors w) (pops w)
               (unhandled_rejections w) (form_jsonData w)).

(** [JSON.parse(t)] as a statement. *)
Definition JSON_parse_or_throw (t : jsstring) : M value :=
  match JSON_parse t with
  | Some v => ret v
  | None => throw Error_SyntaxError
  end.

(* ------------------------------------------------------------------ *)
(** * The handlers of [Command] and [EditorView] *)

Local Open Scope js_scope.

(** Lines 76-92. *)
Definition loadData : M unit :=
  try_finally
    (try_catch
       (storedData <- LocalStorage_getItem ;;
        match storedData with
        | Some t =>
            if truthy_string t then
              parsedData <- JSON_parse_or_throw t ;;
              setTroubleshootingData parsedData
            else setTroubleshootingData (Data_value initialTroubleshootingData)
        | None => setTroubleshootingData (Data_value initialTroubleshootingData)
        end)
       (fun error =>
          console_error "Failed to load or parse troubleshooting data:" ;;
          showToast Toast_Failure "Could not load custom flow" "Using default flow." ;;
          setTroubleshootingData (Data_value initialTroubleshootingData)))
    (setIsLoading false).

(** Lines 97-102. *)
Definition handleSave (newData : value) : M unit :=
  setTroubleshootingData newData ;;
  LocalStorage_setItem (JSON_stringify 0 newData) ;;
  showToast Toast_Success "Flow Saved!" "Your changes have been saved." ;;
  setActiveTab (str "flow").

(** Lines 156-165; [onSave] is the [async] function [handleSave], its
    promise is not awaited. *)
Definition handleSubmit (onSave : value -> M unit) (jsonData : jsstring)
  : M unit :=
  try_catch
    (parsedData <- JSON_parse_or_throw jsonData ;;
     not_awaited (onSave parsedData) ;;
     pop)
    (fun error =>
       console_error "Invalid JSON:" ;;
       showToast Toast_Failure "Invalid JSON" "Please check your syntax.").

(** Line 179: the text the editor opens with. *)
Definition EditorView_defaultValue (currentData : value) : jsstring :=
  JSON_stringify 2 currentData.

(** Line 171: the form hands its field to [handleSubmit]; the field is
    uncontrolled, the component has no setter for it. *)
Definition Action_SubmitForm (onSave : value -> M unit) : M unit :=
  fun w => handleSubmit onSave (form_jsonData w) w.

Local Close Scope js_scope.

(** The world after a handler has run, and how it completed. *)
Definition run {A : Type} (m : M A) (w : World) : World := snd (m w).
Definition completion {A : Type} (m : M A) (w : World) : Completion A :=
  fst (m w).

(** The state [Command] mounts with (lines 70-72), over a given storage. *)
Definition mount (st : LocalStorage) : World :=
  mkWorld (str "flow") true (JObject []) st [] [] 0 [] [].

(* ------------------------------------------------------------------ *)
(** * The [Icon] object as an ordinary object *)

(** What a read [Icon[name]] gives when it is truthy: the symbol of one of
    the table's members, or a member the object inherits from
    [Object.prototype] (a function, or for ["__proto__"] the prototype
    itself), which is no symbol. *)
Inductive IconRead (Symbol : Type) : Type :=
| Icon_member (s : Symbol)
| Icon_inherited (name : jsstring).

Arguments Icon_member {Symbol} s.
Arguments Icon_inherited {Symbol} name.

(** [Icon[name]] when [Icon] is an ordinary object with the given members,
    as the object of a TypeScript enum is at run time: an own member, else
    what [Object.prototype] has under that name.  The symbols of the
    members are non-empty strings, hence truthy. *)
Definition Icon_of_members {Symbol : Type} (members : list (jsstring * Symbol))
    (name : jsstring) : option (IconRead Symbol) :=
  match Get members name with
  | OwnProperty s => Some (Icon_member s)
  | InheritedMember => Some (Icon_inherited name)
  | Undefined => None
  end.

(* ------------------------------------------------------------------ *)
(** * The screen of [Command] and the editor's field (lines 104-122, 175-180) *)

(** What [Command] returns: one of its two views, with the props that
    depend on the state. *)
Inductive Screen : Type :=
| Screen_EditorView (currentData : value)
| Screen_FlowView (isLoading : bool) (troubleshootingData : value).

(** Lines 112-122. *)
Definition Command (w : World) : Screen :=
  if jsstring_eqb (activeTab w) (str "editor")
  then Screen_EditorView (troubleshootingData w)
  else Screen_FlowView (isLoading w) (troubleshootingData w).

(** Line 106, [onChange={setActiveTab}]: the dropdown hands the chosen
    value to [setActiveTab].  A state set to the value it has changes
    nothing.  A change to ["editor"] makes the next render mount
    [EditorView], whose field starts as its [defaultValue] (line 179). *)
Definition Dropdown_onChange (newValue : jsstring) : M unit :=
  fun w =>
    if jsstring_eqb newValue (activeTab w) then (Normal tt, w)
    else if jsstring_eqb newValue (str "editor") then
      (Normal tt,
       mkWorld newValue (isLoading w) (troubleshootingData w) (storage w)
               (toasts w) (console_errors w) (pops w)
               (unhandled_rejections w)
               (EditorView_defaultValue (troubleshootingData w)))
    else setActiveTab newValue w.

(** [number_free v]: no number inside [v]. *)
Fixpoint number_free (v : value) : bool :=
  match v with
  | JNumber _ => false
  | JArray l => forallb number_free l
  | JObject ps => forallb (fun p => number_free (snd p)) ps
  | _ => true
  end.

(* ------------------------------------------------------------------ *)
(** * Selecting answers (lines 211-231) *)

(** [resolves g a]: the answer [a] ends the flow, or its [nextId] is a key
    of [g]. *)
Definition resolves (g : TroubleshootingData) (a : Answer) : bool :=
  match nextId a with
  | Some n => negb (truthy_string n) || has_own_property n g
  | None => true
  end.

(** A flow without dangling references. *)
Definition closed (g : TroubleshootingData) : bool :=
  forallb (fun p => forallb (resolves g) (answers (snd p))) g.

Section Navigation.

Variable IconValue : Type.
Variable Icon : jsstring -> option IconValue.
Variable Icon_ChevronRight : IconValue.

(** The host's navigation stack, top first: each frame is the [stepId] of
    the [TroubleshootingStep] rendered in it.  Selecting the item at
    position [i] of the top frame runs its action: an [Action.Push] puts
    its target (line 218) on the stack, an [Action.CopyToClipboard] leaves
    the stack as it is; so does a position without an item, and a frame
    that shows no items. *)
Definition select (g : TroubleshootingData) (frames : list jsstring)
    (i : nat) : list jsstring :=
  match frames with
  | [] => []
  | top :: _ =>
      match currentStep Icon Icon_ChevronRight g top with
      | Returns (List_Items _ _ items) =>
          match nth_error items i with
          | Some it =>
              match actions it with
              | Action_Push n => n :: frames
              | Action_CopyToClipboard _ => frames
              end
          | None => frames
          end
      | _ => frames
      end
  end.

End Navigation.

Arguments select {IconValue} Icon Icon_ChevronRight g frames i.

(* ------------------------------------------------------------------ *)
(** * The flow view on the unchecked state (lines 117-121, 128-148, 189-237) *)

(** [Command] hands [FlowView] its state, which is whatever [JSON.parse]
    returned: the declared type is not checked.  This module follows the
    same lines on an arbitrary value, for the step the root view renders. *)
Module Untyped.

(** [v.name], for a value [v] other than [null] and for the names the
    component reads by a fixed name (["start"], ["question"], ["answers"],
    ["text"], ["icon"], ["nextId"]): the own property of an object, and
    [undefined] ([None]) on anything else, no built-in prototype having a
    member under one of these names. *)
Definition field (name : string) (v : value) : option value :=
  match v with
  | JObject ps => own_property (str name) ps
  | _ => None
  end.

Arguments field name%_string v.

Inductive Action : Type :=
| Action_Push (stepId : value)
| Action_CopyToClipboard (content : jsstring).

(** Whether using [v] as a property key throws.  The key is [ToString(v)]:
    an object with an own ["toString"] property has no callable
    [toString], and its [valueOf] returns the object itself, so the
    conversion throws; an array joins the strings of its elements, [null]
    counting as the empty string. *)
Fixpoint ToPropertyKey_throws (v : value) : bool :=
  match v with
  | JObject ps => has_own_property (str "toString") ps
  | JArray l => existsb ToPropertyKey_throws l
  | _ => false
  end.

Section Render.

(** [Icon_read v] is the read [Icon[v]] for a truthy [v], [None] standing
    for a falsy result; [Number_is_zero l] tells whether the double that
    the literal [l] denotes is zero. *)
Variable IconValue : Type.
Variable Icon_read : value -> option IconValue.
Variable Icon_ChevronRight : IconValue.
Variable Number_is_zero : jsstring -> bool.

Definition ToBoolean (v : value) : bool :=
  match v with
  | JNull => false
  | JBool b => b
  | JNumber l => negb (Number_is_zero l)
  | JString s => truthy_string s
  | JArray _ => true
  | JObject _ => true
  end.

(** [ToBoolean] on the result of a read. *)
Definition truthy (o : option value) : bool :=
  match o with
  | Some v => ToBoolean v
  | None => false
  end.

Record ListItem := mkItem {
  title : option value;
  item_icon : IconValue;
  actions : Action
}.

Inductive Element : Type :=
| List_isLoading
| List_EmptyView (title description : jsstring)
| List_Items (navigationTitle : option value) (searchBarPlaceholder : jsstring)
             (items : list ListItem).

Inductive Render : Type :=
| Returns (e : Element)
| Throws_TypeError.

(** Line 210. *)
Definition symbolFor (icon : option value) : IconValue :=
  match icon with
  | Some v =>
      if ToBoolean v then
        match Icon_read v with
        | Some s => s
        | None => Icon_ChevronRight
        end
      else Icon_ChevronRight
  | None => Icon_ChevronRight
  end.

(** Line 210: whether [Icon[answer.icon]] throws. *)
Definition icon_key_throws (icon : option value) : bool :=
  match icon with
  | Some v => ToBoolean v && ToPropertyKey_throws v
  | None => false
  end.

(** Lines 207-233, the callback of [map]; [None] when it throws: on
    [answer.text] for an answer that is [null], on [Icon[answer.icon]] for
    an icon that cannot be made a key, and on [answer.text.replace] when
    [nextId] is falsy and the text is not a string. *)
Definition List_Item (answer : value) : option ListItem :=
  match answer with
  | JNull => None
  | _ =>
    if icon_key_throws (field "icon" answer) then None
    else
      let icon := symbolFor (field "icon" answer) in
      match field "nextId" answer with
      | Some n =>
          if ToBoolean n then
            Some (mkItem (field "text" answer) icon (Action_Push n))
          else
            match field "text" answer with
            | Some (JString s) =>
                Some (mkItem (field "text" answer) icon
                        (Action_CopyToClipboard (replace_Solution_prefix s)))
            | _ => None
            end
      | None =>
          match field "text" answer with
          | Some (JString s) =>
              Some (mkItem (field "text" answer) icon
                      (Action_CopyToClipboard (replace_Solution_prefix s)))
          | _ => None
          end
      end
  end.

(** [answers.map(callback)] on an array: the items in order, or the first
    throw. *)
Fixpoint map_List_Item (answers : list value) : option (list ListItem) :=
  match answers with
  | [] => Some []
  | a :: answers' =>
      match List_Item a with
      | Some it =>
          match map_List_Item answers' with
          | Some its => Some (it :: its)
          | None => None
          end
      | None => None
      end
  end.

(** Lines 192-236, once [currentStep] is read.  A truthy [currentStep]
    whose [answers] is not an array makes [currentStep.answers.map] throw:
    [answers] is [undefined] or [null], or has no callable [map]. *)
Definition TroubleshootingStep_body (currentStep : PropertyRead value)
    (isLoading : bool) : Render :=
  if isLoading then Returns List_isLoading
  else
    match currentStep with
    | Undefined =>
        Returns (List_EmptyView (str "End of Flow")
                                (str "You've reached a final step."))
    | InheritedMember => Throws_TypeError
    | OwnProperty st =>
        if ToBoolean st then
          match field "answers" st with
          | Some (JArray answers) =>
              match map_List_Item answers with
              | Some items =>
                  Returns (List_Items (field "question" st)
                                      (str "Select an answer") items)
              | None => Throws_TypeError
              end
          | _ => Throws_TypeError
          end
        else
          Returns (List_EmptyView (str "End of Flow")
                                  (str "You've reached a final step."))
    end.

(** [troubleshootingData["start"]] (lines 132 and 190): [None] when the
    read throws, which it does on [null]. *)
Definition read_start (troubleshootingData : value)
  : option (PropertyRead value) :=
  match troubleshootingData with
  | JNull => None
  | _ =>
      match field "start" troubleshootingData with
      | Some st => Some (OwnProperty st)
      | None => Some Undefined
      end
  end.

(** Lines 128-148, with [TroubleshootingStep] at the [stepId] ["start"]. *)
Definition FlowView (isLoading : bool) (troubleshootingData : value) : Render :=
  match read_start troubleshootingData with
  | None => Throws_TypeError
  | Some start =>
      let missing :=
        match start with
        | OwnProperty st => negb (ToBoolean st)
        | InheritedMember => false
        | Undefined => true
        end in
      if missing && negb isLoading then
        Returns (List_EmptyView (str "Invalid Flow Data")
          (str "Could not find a 'start' step. Check your data in the editor."))
      else TroubleshootingStep_body start isLoading
  end.

End Render.

Arguments mkItem {IconValue} title item_icon actions.
Arguments title {IconValue} _.
Arguments item_icon {IconValue} _.
Arguments actions {IconValue} _.
Arguments List_isLoading {IconValue}.
Arguments List_EmptyView {IconValue} _ _.
Arguments List_Items {IconValue} _ _ _.
Arguments Returns {IconValue} _.
Arguments Throws_TypeError {IconValue}.
Arguments symbolFor {IconValue} Icon_read Icon_ChevronRight Number_is_zero icon.
Arguments List_Item {IconValue} Icon_read Icon_ChevronRight Number_is_zero answer.
Arguments map_List_Item {IconValue} Icon_read Icon_ChevronRight Number_is_zero
  answers.
Arguments TroubleshootingStep_body {IconValue} Icon_read Icon_ChevronRight
  Number_is_zero currentStep isLoading.
Arguments FlowView {IconValue} Icon_read Icon_ChevronRight Number_is_zero
  isLoading troubleshootingData.

End Untyped.

(** The icon table the typed render sees: the reads at string keys. *)
Definition Icon_at_strings {IconValue : Type}
    (Icon_read : value -> option IconValue) (name : jsstring)
  : option IconValue :=
  Icon_read (JString name).

(** What the typed render is on the unchecked state: strings are string
    values, the rest is as it is. *)
Definition Action_value (a : Action) : Untyped.Action :=
  match a with
  | Action_Push n => Untyped.Action_Push (JString n)
  | Action_CopyToClipboard c => Untyped.Action_CopyToClipboard c
  end.

Definition ListItem_value {IconValue : Type} (it : ListItem IconValue)
  : Untyped.ListItem IconValue :=
  Untyped.mkItem (Some (JString (title it))) (item_icon it)
                 (Action_value (actions it)).

Definition Render_value {IconValue : Type} (r : Render IconValue)
  : Untyped.Render IconValue :=
  match r with
  | Returns List_isLoading => Untyped.Returns Untyped.List_isLoading
  | Returns (List_EmptyView t d) => Untyped.Returns (Untyped.List_EmptyView t d)
  | Returns (List_Items q p items) =>
      Untyped.Returns
        (Untyped.List_Items (Some (JString q)) p (map ListItem_value items))
  | Throws_TypeError => Untyped.Throws_TypeError
  end.

(* ================================================================== *)
(** * Properties of the traversal *)

Lemma jsstring_eqb_eq (a b : jsstring) : jsstring_eqb a b = true <-> a = b.
Proof.
  revert b; induction a as [|x a IH]; intros [|y b]; simpl;
    try (split; [discriminate | discriminate]); try tauto.
  rewrite andb_true_iff, N.eqb_eq, IH.
  split; [intros [-> ->]; reflexivity | intros E; inversion E; auto].
Qed.

Lemma jsstring_eqb_refl (a : jsstring) : jsstring_eqb a a = true.
Proof. apply jsstring_eqb_eq; reflexivity. Qed.

Lemma jsstring_eqb_neq (a b : jsstring) : jsstring_eqb a b = false <-> a <> b.
Proof.
  rewrite <- jsstring_eqb_eq. destruct (jsstring_eqb a b); split; congruence.
Qed.

Lemma match_literal_app (p r : jsstring) : match_literal p (p ++ r) = Some r.
Proof.
  induction p as [|c p IH]; simpl; [reflexivity|].
  rewrite N.eqb_refl. exact IH.
Qed.

Lemma match_literal_inv (p s r : jsstring) :
  match_literal p s = Some r -> s = p ++ r.
Proof.
  revert s; induction p as [|c p IH]; intros s; simpl.
  - intros E; inversion E; reflexivity.
  - destruct s as [|d s]; [discriminate|].
    destruct (N.eqb_spec c d) as [->|]; [|discriminate].
    intros E; rewrite (IH _ E); reflexivity.
Qed.

Lemma replace_Solution_prefix_tagged (rest : jsstring) :
  replace_Solution_prefix (str "Solution: " ++ rest) = rest.
Proof. unfold replace_Solution_prefix. rewrite match_literal_app. reflexivity. Qed.

Lemma replace_Solution_prefix_untagged (t : jsstring) :
  (forall rest, t <> str "Solution: " ++ rest) ->
  replace_Solution_prefix t = t.
Proof.
  intros H. unfold replace_Solution_prefix.
  destruct (match_literal (str "Solution: ") t) as [r|] eqn:E; [|reflexivity].
  apply match_literal_inv in E. destruct (H r E).
Qed.

Lemma own_property_has {A : Type} (k : jsstring) (o : list (jsstring * A)) :
  own_property k o = None <-> ~ In k (map fst o).
Proof.
  induction o as [|[k' a] o IH]; simpl; [tauto|].
  destruct (jsstring_eqb k k') eqn:E.
  - apply jsstring_eqb_eq in E. subst. split; [discriminate | tauto].
  - apply jsstring_eqb_neq in E. rewrite IH. split; [intros H [F|F]; auto | tauto].
Qed.

Section Traversal.

Context {IconValue : Type}.
Variable Icon : jsstring -> option IconValue.
Variable Icon_ChevronRight : IconValue.

(** A step identifier that is neither a key of the flow nor a property name
    of [Object.prototype] renders the end-of-flow view. *)
Lemma TroubleshootingStep_missing_step (g : TroubleshootingData)
    (stepId : jsstring) :
  ~ In stepId (map fst g) ->
  mem_string stepId Object_prototype_keys = false ->
  currentStep Icon Icon_ChevronRight g stepId =
    Returns (List_EmptyView (str "End of Flow")
                            (str "You've reached a final step.")).
Proof.
  intros Hk Hp. unfold currentStep, TroubleshootingStep, Get.
  apply own_property_has in Hk. rewrite Hk, Hp. reflexivity.
Qed.

(** A step identifier that is a property name of [Object.prototype] and not
    a key of the flow makes the render throw. *)
Lemma TroubleshootingStep_prototype_name (g : TroubleshootingData)
    (stepId : jsstring) :
  ~ In stepId (map fst g) ->
  mem_string stepId Object_prototype_keys = true ->
  currentStep Icon Icon_ChevronRight g stepId = Throws_TypeError.
Proof.
  intros Hk Hp. unfold currentStep, TroubleshootingStep, Get.
  apply own_property_has in Hk. rewrite Hk, Hp. reflexivity.
Qed.

(** C4, at the input where the code departs from it: ["toString"] is not a
    key of the built-in flow, yet rendering that step throws a [TypeError]
    instead of showing the end-of-flow view. *)
Theorem TroubleshootingStep_inherited_member_throws :
  ~ In (str "toString") (map fst initialTroubleshootingData) /\
  currentStep Icon Icon_ChevronRight initialTroubleshootingData (str "toString") = Throws_TypeError /\
  currentStep Icon Icon_ChevronRight initialTroubleshootingData (str "does-not-exist") =
    Returns (List_EmptyView (str "End of Flow")
                            (str "You've reached a final step.")).
Proof.
  split; [|split].
  - apply own_property_has. reflexivity.
  - reflexivity.
  - reflexivity.
Qed.

(** C8: in the built-in flow the step ["log-errors"] renders exactly one
    item, whose action copies
    ["Check file permissions or kill the process on that port."], the
    answer's text without its ["Solution: "] tag. *)
Theorem log_errors_is_terminal :
  currentStep Icon Icon_ChevronRight initialTroubleshootingData (str "log-errors") =
    Returns
      (List_Items
         (str "Common errors include 'Permission Denied' or 'Port in Use'.")
         (str "Select an answer")
         [ mkItem
             (str "Solution: Check file permissions or kill the process on that port.")
             (symbolFor Icon Icon_ChevronRight (Some (str "Wrench")))
             (Action_CopyToClipboard
                (str "Check file permissions or kill the process on that port.")) ]).
Proof. reflexivity. Qed.

End Traversal.

(** C5 as stated fails where [nextId] is present and empty: the action is
    the copy, not the navigation. *)
Lemma selectAnswer_present_nextId_counterexample :
  let a := mkAnswer (str "Retry") (Some []) None in
  nextId a = Some [] /\ selectAnswer a <> Action_Push [].
Proof. split; [reflexivity | discriminate]. Qed.

(** C5, amended: the action is a function of the answer alone; a [nextId]
    that is present and not empty gives the navigation to it, an absent one
    gives the copy of the resolution text, which pushes no frame. *)
Theorem selectAnswer_decision (a : Answer) :
  (forall n, nextId a = Some n -> n <> [] -> selectAnswer a = Action_Push n) /\
  (nextId a = None ->
   selectAnswer a = Action_CopyToClipboard (replace_Solution_prefix (text a)) /\
   forall (IconValue : Type) (Icon : jsstring -> option IconValue)
          (chevron : IconValue) (g : TroubleshootingData),
     Push_target Icon chevron g (selectAnswer a) = None).
Proof.
  unfold selectAnswer. split.
  - intros n -> Hn. destruct n; [congruence | reflexivity].
  - intros ->. split; reflexivity.
Qed.

Lemma selectAnswer_decision_witness :
  selectAnswer (mkAnswer (str "It crashed") (Some (str "crashed")) None)
    = Action_Push (str "crashed") /\
  selectAnswer (mkAnswer (str "Done!") None None)
    = Action_CopyToClipboard (str "Done!").
Proof.
  split.
  - apply (proj1 (selectAnswer_decision
                    (mkAnswer (str "It crashed") (Some (str "crashed")) None)));
      [reflexivity | discriminate].
  - apply (proj1 (proj2 (selectAnswer_decision (mkAnswer (str "Done!") None None))
                    eq_refl)).
Defined.

(** C7: for an answer that ends the flow, the copied text is the answer's
    text without the leading ["Solution: "] when the text starts with it,
    whatever follows, and the text itself when it does not start with it. *)
Theorem copied_text_strips_leading_tag (a : Answer) :
  truthy (nextId a) = false ->
  (forall rest, text a = str "Solution: " ++ rest ->
                selectAnswer a = Action_CopyToClipboard rest) /\
  ((forall rest, text a <> str "Solution: " ++ rest) ->
   selectAnswer a = Action_CopyToClipboard (text a)).
Proof.
  intros Hn.
  assert (E : selectAnswer a
              = Action_CopyToClipboard (replace_Solution_prefix (text a))).
  { unfold selectAnswer. destruct (nextId a) as [n|]; [|reflexivity].
    simpl in Hn. rewrite Hn. reflexivity. }
  rewrite E. split.
  - intros rest ->. rewrite replace_Solution_prefix_tagged. reflexivity.
  - intros H. rewrite replace_Solution_prefix_untagged by exact H. reflexivity.
Qed.

Lemma copied_text_strips_leading_tag_witness :
  selectAnswer (mkAnswer (str "Solution: Solution: reboot") None None)
    = Action_CopyToClipboard (str "Solution: reboot") /\
  selectAnswer (mkAnswer (str "Try the Solution: reboot") None None)
    = Action_CopyToClipboard (str "Try the Solution: reboot").
Proof.
  split.
  - apply (proj1 (copied_text_strips_leading_tag
                    (mkAnswer (str "Solution: Solution: reboot") None None)
                    eq_refl)).
    reflexivity.
  - apply (proj2 (copied_text_strips_leading_tag
                    (mkAnswer (str "Try the Solution: reboot") None None)
                    eq_refl)).
    intros rest. discriminate.
Defined.

(** C10: an answer whose [nextId] is the empty string gets the copy action,
    not the navigation: the test is on the truthiness of [nextId]. *)
Theorem selectAnswer_empty_nextId (a : Answer) :
  nextId a = Some [] ->
  selectAnswer a = Action_CopyToClipboard (replace_Solution_prefix (text a)) /\
  selectAnswer a <> Action_Push [].
Proof.
  intros H. unfold selectAnswer. rewrite H. split; [reflexivity | discriminate].
Qed.

Lemma selectAnswer_empty_nextId_witness :
  selectAnswer (mkAnswer (str "Solution: reboot") (Some []) (Some (str "Wrench")))
    = Action_CopyToClipboard (str "reboot").
Proof.
  apply (proj1 (selectAnswer_empty_nextId
                  (mkAnswer (str "Solution: reboot") (Some []) (Some (str "Wrench")))
                  eq_refl)).
Defined.

(** The action of an answer does not depend on its icon. *)
Lemma selectAnswer_ignores_icon (t : jsstring) (n i j : option jsstring) :
  selectAnswer (mkAnswer t n i) = selectAnswer (mkAnswer t n j).
Proof. reflexivity. Qed.

(** The icon lookup on a table that is an ordinary object: an answer
    without icon, and a name that is neither a member of the table nor a
    property name of [Object.prototype], get [Icon.ChevronRight]; the name
    of a member gets the member's symbol. *)
Lemma symbolFor_of_members {Symbol : Type} (members : list (jsstring * Symbol))
    (chevron : Symbol) :
  symbolFor (Icon_of_members members) (Icon_member chevron) None
  = Icon_member chevron /\
  (forall name,
     ~ In name (map fst members) ->
     mem_string name Object_prototype_keys = false ->
     symbolFor (Icon_of_members members) (Icon_member chevron) (Some name)
     = Icon_member chevron) /\
  (forall name s,
     name <> [] ->
     own_property name members = Some s ->
     symbolFor (Icon_of_members members) (Icon_member chevron) (Some name)
     = Icon_member s).
Proof.
  split; [reflexivity|]. split.
  - intros name Hk Hp. apply own_property_has in Hk.
    unfold symbolFor, Icon_of_members, Get. rewrite Hk, Hp.
    destruct (truthy_string name); reflexivity.
  - intros name s Hne Hs. unfold symbolFor, Icon_of_members, Get. rewrite Hs.
    destruct name; [congruence | reflexivity].
Qed.

(** C9, at the input where the code departs from it: ["toString"] is not
    the name of an icon, yet the lookup for it gives the function the
    table inherits under that name, which is not [Icon.ChevronRight]. *)
Theorem symbolFor_inherited_name {Symbol : Type}
    (members : list (jsstring * Symbol)) (chevron : Symbol) :
  ~ In (str "toString") (map fst members) ->
  symbolFor (Icon_of_members members) (Icon_member chevron)
    (Some (str "toString"))
  = Icon_inherited (str "toString") /\
  symbolFor (Icon_of_members members) (Icon_member chevron)
    (Some (str "toString"))
  <> Icon_member chevron.
Proof.
  intros Hk. apply own_property_has in Hk.
  assert (E : symbolFor (Icon_of_members members) (Icon_member chevron)
                (Some (str "toString")) = Icon_inherited (str "toString")).
  { unfold symbolFor, Icon_of_members, Get. rewrite Hk. reflexivity. }
  rewrite E. split; [reflexivity | discriminate].
Qed.

Lemma symbolFor_inherited_name_witness :
  let members := [ (str "Wrench", str "wrench-16");
                   (str "ChevronRight", str "chevron-right-16") ] in
  symbolFor (Icon_of_members members) (Icon_member (str "chevron-right-16"))
    (Some (str "toString"))
  = Icon_inherited (str "toString").
Proof.
  intros members.
  refine (proj1 (symbolFor_inherited_name members (str "chevron-right-16") _)).
  apply own_property_has. reflexivity.
Defined.

(* ================================================================== *)
(** * [JSON.parse] reads back what [JSON.stringify] writes *)

(** ** String literals *)

Lemma hex_value_hex_digit (d : N) : d < 16 -> hex_value (hex_digit d) = Some d.
Proof.
  intros H. unfold hex_digit, hex_value, is_digit.
  destruct (N.ltb_spec d 10) as [L|L].
  - replace ((48 <=? 48 + d) && (48 + d <=? 57)) with true
      by (symmetry; apply andb_true_iff; split; apply N.leb_le; lia).
    f_equal; lia.
  - replace ((48 <=? 87 + d) && (87 + d <=? 57)) with false
      by (symmetry; apply andb_false_iff; right; apply N.leb_gt; lia).
    replace ((97 <=? 87 + d) && (87 + d <=? 102)) with true
      by (symmetry; apply andb_true_iff; split; apply N.leb_le; lia).
    f_equal; lia.
Qed.

Lemma hex_digits_value (c : N) :
  c < 65536 ->
  ((c / 4096 mod 16 * 16 + c / 256 mod 16) * 16 + c / 16 mod 16) * 16
  + c mod 16 = c.
Proof.
  intros H.
  pose proof (N.div_mod c 16 ltac:(lia)) as E0.
  pose proof (N.div_mod (c / 16) 16 ltac:(lia)) as E1.
  pose proof (N.div_mod (c / 256) 16 ltac:(lia)) as E2.
  assert (D1 : c / 16 / 16 = c / 256) by (rewrite N.Div0.div_div; reflexivity).
  assert (D2 : c / 256 / 16 = c / 4096) by (rewrite N.Div0.div_div; reflexivity).
  assert (B : c / 4096 < 16) by (apply N.Div0.div_lt_upper_bound; lia).
  rewrite D1 in E1. rewrite D2 in E2. rewrite (N.mod_small _ _ B). lia.
Qed.

Lemma parse_chars_escape (a b c d : N) (s : jsstring) :
  parse_chars (92 :: 117 :: a :: b :: c :: d :: s) =
    match hex4 a b c d with
    | Some u => cons_unit u (parse_chars s)
    | None => None
    end.
Proof. reflexivity. Qed.

Lemma parse_chars_UnicodeEscape (c : N) (s : jsstring) :
  c < 65536 ->
  parse_chars (UnicodeEscape c ++ s) = cons_unit c (parse_chars s).
Proof.
  intros H. unfold UnicodeEscape.
  change (parse_chars
            (92 :: 117 :: hex_digit (c / 4096 mod 16) :: hex_digit (c / 256 mod 16)
                :: hex_digit (c / 16 mod 16) :: hex_digit (c mod 16) :: s)
          = cons_unit c (parse_chars s)).
  rewrite parse_chars_escape. unfold hex4.
  rewrite !hex_value_hex_digit by (apply N.mod_lt; discriminate).
  rewrite hex_digits_value by exact H. reflexivity.
Qed.

Lemma parse_chars_verbatim (c : N) (s : jsstring) :
  c <> 34 -> c <> 92 -> 32 <= c ->
  parse_chars (c :: s) = cons_unit c (parse_chars s).
Proof.
  intros H1 H2 H3. simpl.
  destruct (N.eqb_spec c 34); [contradiction|].
  destruct (N.eqb_spec c 92); [contradiction|].
  destruct (N.ltb_spec c 32); [lia|]. reflexivity.
Qed.

Lemma parse_chars_quote_unit (c : N) (s : jsstring) :
  parse_chars (quote_unit c ++ s) = cons_unit c (parse_chars s).
Proof.
  unfold quote_unit.
  destruct (N.eqb_spec c 8) as [->|N8]; [reflexivity|].
  destruct (N.eqb_spec c 9) as [->|N9]; [reflexivity|].
  destruct (N.eqb_spec c 10) as [->|N10]; [reflexivity|].
  destruct (N.eqb_spec c 12) as [->|N12]; [reflexivity|].
  destruct (N.eqb_spec c 13) as [->|N13]; [reflexivity|].
  destruct (N.eqb_spec c 34) as [->|N34]; [reflexivity|].
  destruct (N.eqb_spec c 92) as [->|N92]; [reflexivity|].
  destruct ((c <? 32) || is_leading_surrogate c || is_trailing_surrogate c) eqn:E.
  - apply parse_chars_UnicodeEscape.
    unfold is_leading_surrogate, is_trailing_surrogate in E.
    rewrite !orb_true_iff, !andb_true_iff, N.ltb_lt, !N.leb_le in E. lia.
  - rewrite !orb_false_iff, N.ltb_ge in E. destruct E as [[E _] _].
    apply parse_chars_verbatim; assumption.
Qed.

Lemma parse_chars_quote_units (s rest : jsstring) :
  parse_chars (quote_units s ++ 34 :: rest) = Some (s, rest).
Proof.
  remember (List.length s) as n eqn:Hn.
  assert (Hle : (List.length s <= n)%nat) by lia. clear Hn.
  revert s Hle. induction n as [|n IH]; intros s Hle.
  - destruct s; [reflexivity | simpl in Hle; lia].
  - destruct s as [|c s']; [reflexivity|].
    simpl in Hle. simpl quote_units.
    assert (Hone : parse_chars ((quote_unit c ++ quote_units s') ++ 34 :: rest)
                   = Some (c :: s', rest)).
    { rewrite <- app_assoc, parse_chars_quote_unit, IH by lia. reflexivity. }
    destruct (is_leading_surrogate c) eqn:Lc; [|exact Hone].
    destruct s' as [|d s''];
      [simpl in Hone; rewrite app_nil_r in Hone; exact Hone|].
    destruct (is_trailing_surrogate d) eqn:Td; [|exact Hone].
    unfold is_leading_surrogate in Lc. unfold is_trailing_surrogate in Td.
    rewrite andb_true_iff, !N.leb_le in Lc, Td.
    simpl in Hle. simpl app.
    rewrite parse_chars_verbatim by lia.
    rewrite parse_chars_verbatim by lia.
    rewrite IH by lia. reflexivity.
Qed.

Lemma parse_chars_QuoteJSONString (s rest : jsstring) :
  QuoteJSONString s ++ rest = 34 :: quote_units s ++ 34 :: rest.
Proof. unfold QuoteJSONString. simpl. rewrite <- app_assoc. reflexivity. Qed.

(** ** The property order of objects *)

Lemma precedes_irrefl (k : jsstring) : precedes k k = false.
Proof.
  unfold precedes. destruct (array_index k).
  - apply N.ltb_irrefl.
  - rewrite jsstring_eqb_refl. reflexivity.
Qed.

Lemma property_order_app_l (l1 l2 : list jsstring) :
  property_order (l1 ++ l2) = true -> property_order l1 = true.
Proof.
  induction l1 as [|k l1 IH]; simpl; [reflexivity|].
  rewrite forallb_app, !andb_true_iff. intros [[H _] H']. auto.
Qed.

Lemma property_order_last (ks : list jsstring) (k : jsstring) :
  property_order (ks ++ [k]) = true ->
  Forall (fun k' => precedes k' k = true) ks.
Proof.
  induction ks as [|k' ks IH]; simpl; [constructor|].
  rewrite forallb_app, !andb_true_iff. simpl. rewrite andb_true_r.
  intros [[_ H] H']. constructor; auto.
Qed.

Lemma CreateDataProperty_last {A : Type} (o : list (jsstring * A))
    (k : jsstring) (a : A) :
  Forall (fun k' => precedes k' k = true) (map fst o) ->
  CreateDataProperty o k a = o ++ [(k, a)].
Proof.
  intros H. unfold CreateDataProperty.
  assert (Hown : has_own_property k o = false).
  { unfold has_own_property. induction o as [|[k' a'] o IH]; [reflexivity|].
    simpl in *. inversion H as [|? ? Hk Ho]; subst.
    rewrite IH by exact Ho. rewrite orb_false_r.
    destruct (jsstring_eqb k k') eqn:E; [|reflexivity].
    apply jsstring_eqb_eq in E. subst. rewrite precedes_irrefl in Hk.
    discriminate. }
  rewrite Hown. destruct (array_index k) as [i|] eqn:Ek; [|reflexivity].
  clear Hown. induction o as [|[k' a'] o IH]; [reflexivity|].
  simpl in *. inversion H as [|? ? Hk Ho]; subst.
  unfold precedes in Hk. rewrite Ek in Hk.
  destruct (array_index k') as [j|]; [|discriminate].
  rewrite Hk, IH by exact Ho. reflexivity.
Qed.

Lemma fold_CreateDataProperty {A : Type} (ms acc : list (jsstring * A)) :
  property_order (map fst (acc ++ ms)) = true ->
  fold_left (fun o p => CreateDataProperty o (fst p) (snd p)) ms acc = acc ++ ms.
Proof.
  revert acc. induction ms as [|[k a] ms IH]; intros acc H; simpl.
  - rewrite app_nil_r. reflexivity.
  - assert (E : acc ++ (k, a) :: ms = (acc ++ [(k, a)]) ++ ms)
      by (rewrite <- app_assoc; reflexivity).
    rewrite E in H. rewrite CreateDataProperty_last.
    + rewrite IH by exact H. rewrite <- app_assoc. reflexivity.
    + rewrite map_app in H. apply property_order_app_l in H.
      rewrite map_app in H. simpl in H. apply property_order_last. exact H.
Qed.

(** ** Induction over values *)

Lemma value_ind (P : value -> Prop) :
  P JNull ->
  (forall b, P (JBool b)) ->
  (forall l, P (JNumber l)) ->
  (forall s, P (JString s)) ->
  (forall vs, Forall P vs -> P (JArray vs)) ->
  (forall ps, Forall (fun p => P (snd p)) ps -> P (JObject ps)) ->
  forall v, P v.
Proof.
  intros Hnull Hbool Hnum Hstr Harr Hobj.
  fix self 1. intros [ | b | l | s | vs | ps ].
  - exact Hnull.
  - apply Hbool.
  - apply Hnum.
  - apply Hstr.
  - apply Harr. induction vs as [|v vs IHvs]; constructor; [apply self | exact IHvs].
  - apply Hobj. induction ps as [|[k v] ps IHps]; constructor;
      [apply self | exact IHps].
Qed.

(** ** White space and the shape of serialized text *)

Lemma skip_ws_app (ws s : jsstring) :
  forallb is_ws ws = true -> skip_ws (ws ++ s) = skip_ws s.
Proof.
  induction ws as [|c ws IH]; simpl; [reflexivity|].
  rewrite andb_true_iff. intros [-> H]. auto.
Qed.

Lemma skip_ws_head (c : N) (s : jsstring) :
  is_ws c = false -> skip_ws (c :: s) = c :: s.
Proof. intros H. simpl. rewrite H. reflexivity. Qed.

Lemma skip_ws_idem (s : jsstring) : skip_ws (skip_ws s) = skip_ws s.
Proof.
  induction s as [|c s IH]; simpl; [reflexivity|].
  destruct (is_ws c) eqn:E; [exact IH | simpl; rewrite E; reflexivity].
Qed.

Lemma line_break_ws (gap indent : jsstring) :
  forallb is_ws indent = true -> forallb is_ws (line_break gap indent) = true.
Proof. intros H. destruct gap; simpl; [reflexivity | exact H]. Qed.

Lemma wrap_nonempty {A : Type} (open close : N) (gap stepback indent : jsstring)
    (f : A -> jsstring) (x : A) (l : list A) :
  wrap open close gap stepback indent (map f (x :: l)) =
    open :: line_break gap indent
         ++ join (44 :: line_break gap indent) (map f (x :: l))
         ++ line_break gap stepback ++ [close].
Proof. unfold wrap, line_break. destruct gap; reflexivity. Qed.

Lemma join_map_one {A : Type} (sep : jsstring) (f : A -> jsstring) (x : A) :
  join sep (map f [x]) = f x.
Proof. reflexivity. Qed.

Lemma join_map_cons {A : Type} (sep : jsstring) (f : A -> jsstring)
    (x y : A) (l : list A) :
  join sep (map f (x :: y :: l)) = f x ++ sep ++ join sep (map f (y :: l)).
Proof. reflexivity. Qed.

Lemma join_map_head {A : Type} (sep : jsstring) (f : A -> jsstring)
    (x : A) (l : list A) :
  exists t, join sep (map f (x :: l)) = f x ++ t.
Proof.
  destruct l as [|y l].
  - exists []. rewrite app_nil_r. reflexivity.
  - eexists. apply join_map_cons.
Qed.

(** Serialized text starts with a code unit that is neither white space
    nor a closing bracket. *)
Lemma Serialize_head (gap indent : jsstring) (v : value) :
  plain v = true ->
  exists c t, SerializeJSONProperty gap indent v = c :: t /\ opens c.
Proof.
  unfold opens.
  destruct v as [ | [|] | l | s | vs | ps ]; simpl; intros H; try discriminate.
  - exists 110, (str "ull"). repeat split; discriminate.
  - exists 116, (str "rue"). repeat split; discriminate.
  - exists 102, (str "alse"). repeat split; discriminate.
  - exists 34, (quote_units s ++ [34]). repeat split; discriminate.
  - destruct vs as [|v vs].
    + exists 91, [93]. repeat split; discriminate.
    + rewrite wrap_nonempty. eexists 91, _.
      repeat split; discriminate.
  - destruct ps as [|p ps].
    + exists 123, [125]. repeat split; discriminate.
    + rewrite wrap_nonempty. eexists 123, _.
      repeat split; discriminate.
Qed.

(** ** One step of the parser *)

Lemma parse_value_ws (fuel : nat) (ws s : jsstring) :
  forallb is_ws ws = true -> parse_value fuel (ws ++ s) = parse_value fuel s.
Proof.
  intros H. destruct fuel; [reflexivity|].
  simpl. rewrite skip_ws_app by exact H. reflexivity.
Qed.

Lemma parse_value_string (fuel : nat) (r : jsstring) :
  parse_value (S fuel) (34 :: r) =
    match parse_chars r with
    | Some (x, r') => Parsed (JString x) r'
    | None => SyntaxError
    end.
Proof. reflexivity. Qed.

Lemma parse_value_array (fuel : nat) (r : jsstring) :
  parse_value (S fuel) (91 :: r) =
    match starts_with 93 (skip_ws r) with
    | Some r' => Parsed (JArray []) r'
    | None =>
        match parse_elements fuel r with
        | Parsed vs r' => Parsed (JArray vs) r'
        | SyntaxError => SyntaxError
        | OutOfFuel => OutOfFuel
        end
    end.
Proof. reflexivity. Qed.

Lemma parse_value_object (fuel : nat) (r : jsstring) :
  parse_value (S fuel) (123 :: r) =
    match starts_with 125 (skip_ws r) with
    | Some r' => Parsed (JObject []) r'
    | None =>
        match parse_members fuel r with
        | Parsed ms r' =>
            Parsed (JObject (fold_left
                      (fun o p => CreateDataProperty o (fst p) (snd p))
                      ms [])) r'
        | SyntaxError => SyntaxError
        | OutOfFuel => OutOfFuel
        end
    end.
Proof. reflexivity. Qed.

Lemma parse_elements_step (fuel : nat) (s : jsstring) :
  parse_elements (S fuel) s =
    match parse_value fuel s with
    | Parsed v r =>
        match skip_ws r with
        | c :: r' =>
            if c =? 93 then Parsed [v] r'
            else if c =? 44 then
              match parse_elements fuel r' with
              | Parsed vs r'' => Parsed (v :: vs) r''
              | SyntaxError => SyntaxError
              | OutOfFuel => OutOfFuel
              end
            else SyntaxError
        | [] => SyntaxError
        end
    | SyntaxError => SyntaxError
    | OutOfFuel => OutOfFuel
    end.
Proof. reflexivity. Qed.

Lemma parse_members_step (fuel : nat) (s : jsstring) :
  parse_members (S fuel) s =
    match starts_with 34 (skip_ws s) with
    | Some r =>
        match parse_chars r with
        | Some (k, r1) =>
            match starts_with 58 (skip_ws r1) with
            | Some r2 =>
                match parse_value fuel r2 with
                | Parsed v r3 =>
                    match skip_ws r3 with
                    | c :: r4 =>
                        if c =? 125 then Parsed [(k, v)] r4
                        else if c =? 44 then
                          match parse_members fuel r4 with
                          | Parsed ms r5 => Parsed ((k, v) :: ms) r5
                          | SyntaxError => SyntaxError
                          | OutOfFuel => OutOfFuel
                          end
                        else SyntaxError
                    | [] => SyntaxError
                    end
                | SyntaxError => SyntaxError
                | OutOfFuel => OutOfFuel
                end
            | None => SyntaxError
            end
        | None => SyntaxError
        end
    | None => SyntaxError
    end.
Proof. reflexivity. Qed.

Lemma starts_with_opens (c d : N) (t : jsstring) :
  opens c -> d = 93 \/ d = 125 -> starts_with d (skip_ws (c :: t)) = None.
Proof.
  intros (Hw & H1 & H2) Hd. rewrite skip_ws_head by exact Hw. simpl.
  destruct (N.eqb_spec c d); [destruct Hd; congruence | reflexivity].
Qed.

(** ** Values *)

Section ReadBack.

Variable gap : jsstring.
Hypothesis gap_ws : forallb is_ws gap = true.

Lemma parse_elements_join (vs : list value) :
  Forall (reads_back gap) vs ->
  forallb plain vs = true ->
  vs <> [] ->
  forall (indent stepback rest : jsstring) (fuel : nat),
    forallb is_ws indent = true ->
    forallb is_ws stepback = true ->
    (fold_right (fun x n => S (nesting_cost x + n)) 0 vs <= fuel)%nat ->
    parse_elements fuel
      (line_break gap indent
       ++ join (44 :: line_break gap indent)
            (map (SerializeJSONProperty gap indent) vs)
       ++ line_break gap stepback ++ 93 :: rest)
    = Parsed vs rest.
Proof.
  induction 1 as [|v vs Hv Hvs IH]; intros Hp Hne indent stepback rest fuel
    Hi Hs Hf; [congruence|].
  simpl in Hp. apply andb_true_iff in Hp. destruct Hp as [Hpv Hpvs].
  simpl in Hf. destruct fuel as [|fuel]; [lia|].
  rewrite parse_elements_step.
  rewrite parse_value_ws by (apply line_break_ws; exact Hi).
  destruct vs as [|v' vs'].
  - rewrite join_map_one, (Hv Hpv) by (assumption || lia).
    rewrite skip_ws_app by (apply line_break_ws; exact Hs).
    reflexivity.
  - rewrite join_map_cons, <- !app_assoc, (Hv Hpv) by (assumption || lia).
    cbn [app]. rewrite skip_ws_head by reflexivity.
    change (44 =? 93) with false. change (44 =? 44) with true. cbv iota.
    rewrite (IH Hpvs) by (assumption || discriminate || lia).
    reflexivity.
Qed.

Lemma parse_members_join (ps : list (jsstring * value)) :
  Forall (fun p => reads_back gap (snd p)) ps ->
  forallb (fun p => plain (snd p)) ps = true ->
  ps <> [] ->
  forall (indent stepback rest : jsstring) (fuel : nat),
    forallb is_ws indent = true ->
    forallb is_ws stepback = true ->
    (fold_right (fun p n => S (nesting_cost (snd p) + n)) 0 ps <= fuel)%nat ->
    parse_members fuel
      (line_break gap indent
       ++ join (44 :: line_break gap indent)
            (map (fun p => member gap (fst p)
                             (SerializeJSONProperty gap indent (snd p))) ps)
       ++ line_break gap stepback ++ 125 :: rest)
    = Parsed ps rest.
Proof.
  induction 1 as [|[k v] ps Hv Hps IH]; intros Hp Hne indent stepback rest fuel
    Hi Hs Hf; [congruence|].
  simpl in Hp. apply andb_true_iff in Hp. destruct Hp as [Hpv Hpps].
  simpl in Hf, Hv. destruct fuel as [|fuel]; [lia|].
  rewrite parse_members_step.
  rewrite skip_ws_app by (apply line_break_ws; exact Hi).
  assert (Hkey : forall tail,
    match starts_with 34 (skip_ws
            (member gap k (SerializeJSONProperty gap indent v) ++ tail)) with
    | Some r =>
        match parse_chars r with
        | Some (k0, r1) =>
            match starts_with 58 (skip_ws r1) with
            | Some r2 => parse_value fuel r2 = Parsed v tail /\ k0 = k
            | None => False
            end
        | None => False
        end
    | None => False
    end).
  { intros tail. unfold member.
    rewrite <- app_assoc, parse_chars_QuoteJSONString.
    rewrite skip_ws_head by reflexivity. simpl starts_with. cbv beta iota.
    rewrite parse_chars_quote_units.
    cbn [app]. rewrite skip_ws_head by reflexivity.
    simpl starts_with. cbv beta iota.
    rewrite <- app_assoc.
    rewrite parse_value_ws by (destruct gap; reflexivity).
    rewrite (Hv Hpv) by (assumption || lia). auto. }
  destruct ps as [|p' ps'].
  - rewrite join_map_one. cbn [fst snd].
    specialize (Hkey (line_break gap stepback ++ 125 :: rest)).
    destruct (starts_with 34 _) as [r|]; [|contradiction].
    destruct (parse_chars r) as [[k0 r1]|]; [|contradiction].
    destruct (starts_with 58 _) as [r2|]; [|contradiction].
    destruct Hkey as [-> ->].
    rewrite skip_ws_app by (apply line_break_ws; exact Hs).
    reflexivity.
  - rewrite join_map_cons, <- !app_assoc. cbn [fst snd].
    match goal with
    | |- context [member gap k _ ++ ?t] => specialize (Hkey t)
    end.
    destruct (starts_with 34 _) as [r|]; [|contradiction].
    destruct (parse_chars r) as [[k0 r1]|]; [|contradiction].
    destruct (starts_with 58 _) as [r2|]; [|contradiction].
    destruct Hkey as [-> ->].
    cbn [app]. rewrite skip_ws_head by reflexivity.
    change (44 =? 125) with false. change (44 =? 44) with true. cbv iota.
    rewrite (IH Hpps) by (assumption || discriminate || lia).
    reflexivity.
Qed.

Lemma parse_value_Serialize (v : value) : reads_back gap v.
Proof.
  induction v as [ | b | l | s | vs IH | ps IH ] using value_ind;
    intros Hp indent rest fuel Hi Hf; simpl in Hp; try discriminate;
    (destruct fuel as [|fuel]; [simpl in Hf; lia|]).
  - reflexivity.
  - destruct b; reflexivity.
  - simpl SerializeJSONProperty.
    rewrite parse_chars_QuoteJSONString, parse_value_string.
    rewrite parse_chars_quote_units. reflexivity.
  - simpl SerializeJSONProperty. destruct vs as [|v vs]; [reflexivity|].
    assert (Hw : forallb is_ws (indent ++ gap) = true)
      by (rewrite forallb_app, Hi, gap_ws; reflexivity).
    rewrite wrap_nonempty. cbn [app]. rewrite parse_value_array.
    repeat rewrite <- app_assoc. cbn [app].
    replace (starts_with 93 _) with (@None jsstring).
    + rewrite parse_elements_join; try assumption; try discriminate;
        [reflexivity | simpl in Hf |- *; lia].
    + symmetry. rewrite skip_ws_app by (apply line_break_ws; exact Hw).
      destruct (join_map_head (44 :: line_break gap (indent ++ gap))
                  (SerializeJSONProperty gap (indent ++ gap)) v vs) as [t ->].
      simpl in Hp. apply andb_true_iff in Hp. destruct Hp as [Hpv _].
      destruct (Serialize_head gap (indent ++ gap) v Hpv) as (c & t' & -> & Hc).
      cbn [app]. apply starts_with_opens; auto.
  - simpl SerializeJSONProperty. destruct ps as [|p ps]; [reflexivity|].
    assert (Hw : forallb is_ws (indent ++ gap) = true)
      by (rewrite forallb_app, Hi, gap_ws; reflexivity).
    apply andb_true_iff in Hp. destruct Hp as [Hord Hp].
    rewrite wrap_nonempty. cbn [app]. rewrite parse_value_object.
    repeat rewrite <- app_assoc. cbn [app].
    replace (starts_with 125 _) with (@None jsstring).
    + rewrite parse_members_join; try assumption; try discriminate;
        [|simpl in Hf |- *; lia].
      rewrite fold_CreateDataProperty by exact Hord. reflexivity.
    + symmetry. rewrite skip_ws_app by (apply line_break_ws; exact Hw).
      match goal with
      | |- context [join ?sep (map ?f (p :: ps))] =>
          destruct (join_map_head sep f p ps) as [t ->]
      end.
      unfold member.
      rewrite <- !app_assoc, parse_chars_QuoteJSONString.
      apply starts_with_opens; [repeat split; discriminate | auto].
Qed.

End ReadBack.

(** ** Fuel: the text of a value is at least as long as its nesting cost *)

Lemma join_length_bound {A : Type} (sep : jsstring) (f : A -> jsstring)
    (c : A -> nat) (l : list A) :
  sep <> [] ->
  Forall (fun x => (c x <= List.length (f x))%nat) l ->
  (fold_right (fun x n => S (c x + n)) 0 l
   <= S (List.length (join sep (map f l))))%nat.
Proof.
  intros Hsep H. induction H as [|x l Hx Hl IH]; [simpl; lia|].
  destruct l as [|y l].
  - rewrite join_map_one. simpl. lia.
  - rewrite join_map_cons, !length_app.
    change (fold_right (fun x n => S (c x + n)) 0 (x :: y :: l))%nat
      with (S (c x + fold_right (fun x n => S (c x + n)) 0 (y :: l)))%nat.
    destruct sep; [congruence|]. simpl List.length at 2. lia.
Qed.

Lemma wrap_length (open close : N) (gap stepback indent : jsstring)
    (partial : list jsstring) :
  (2 + List.length (join (44%N :: line_break gap indent) partial)
   <= List.length (wrap open close gap stepback indent partial))%nat.
Proof.
  unfold wrap, line_break.
  destruct partial as [|x partial]; [simpl; lia|].
  destruct gap; simpl; rewrite ?length_app; simpl; rewrite ?length_app; simpl; lia.
Qed.

Lemma nesting_cost_length (gap : jsstring) (v : value) :
  plain v = true ->
  forall indent,
    (nesting_cost v <= List.length (SerializeJSONProperty gap indent v))%nat.
Proof.
  induction v as [ | b | l | s | vs IH | ps IH ] using value_ind;
    intros Hp indent; simpl in Hp; try discriminate.
  - simpl. lia.
  - destruct b; simpl; lia.
  - simpl. rewrite length_app. simpl. lia.
  - simpl SerializeJSONProperty.
    pose proof (wrap_length 91 93 gap indent (indent ++ gap)
                  (map (SerializeJSONProperty gap (indent ++ gap)) vs)) as Hw.
    assert (Hj := join_length_bound (44 :: line_break gap (indent ++ gap))
                    (SerializeJSONProperty gap (indent ++ gap)) nesting_cost vs).
    simpl nesting_cost.
    assert (Hall : Forall (fun x => (nesting_cost x
                     <= List.length (SerializeJSONProperty gap (indent ++ gap) x))%nat) vs).
    { rewrite forallb_forall in Hp. rewrite Forall_forall in IH |- *.
      intros x Hx. apply IH; auto. }
    specialize (Hj ltac:(discriminate) Hall). lia.
  - simpl SerializeJSONProperty.
    apply andb_true_iff in Hp. destruct Hp as [_ Hp].
    pose proof (wrap_length 123 125 gap indent (indent ++ gap)
                  (map (fun p => member gap (fst p)
                     (SerializeJSONProperty gap (indent ++ gap) (snd p))) ps)) as Hw.
    assert (Hj := join_length_bound (44 :: line_break gap (indent ++ gap))
                    (fun p => member gap (fst p)
                       (SerializeJSONProperty gap (indent ++ gap) (snd p)))
                    (fun p => nesting_cost (snd p)) ps).
    simpl nesting_cost.
    assert (Hall : Forall (fun p => (nesting_cost (snd p)
                     <= List.length (member gap (fst p)
                          (SerializeJSONProperty gap (indent ++ gap) (snd p))))%nat) ps).
    { rewrite forallb_forall in Hp. rewrite Forall_forall in IH |- *.
      intros x Hx. unfold member. rewrite length_app. cbn [Datatypes.length].
      rewrite length_app. specialize (IH x Hx (Hp x Hx) (indent ++ gap)). lia. }
    specialize (Hj ltac:(discriminate) Hall). lia.
Qed.

(** ** The round trip *)

Lemma repeat_space_ws (n : nat) : forallb is_ws (repeat 32 n) = true.
Proof. induction n; simpl; auto. Qed.

(** For every value without numbers, and every indentation,
    [JSON.parse(JSON.stringify(v, null, space))] is [v]. *)
Lemma JSON_parse_JSON_stringify (space : nat) (v : value) :
  plain v = true -> JSON_parse (JSON_stringify space v) = Some v.
Proof.
  intros Hp. unfold JSON_parse, JSON_stringify.
  set (gap := repeat 32 (Nat.min space 10)).
  pose proof (parse_value_Serialize gap (repeat_space_ws _) v Hp [] []
                (2 * List.length (SerializeJSONProperty gap [] v) + 2)%nat
                eq_refl) as H.
  rewrite app_nil_r in H. rewrite H; [reflexivity|].
  pose proof (nesting_cost_length gap v Hp []). lia.
Qed.

Lemma JSON_stringify_not_empty (space : nat) (v : value) :
  plain v = true -> truthy_string (JSON_stringify space v) = true.
Proof.
  intros Hp. unfold JSON_stringify.
  destruct (Serialize_head (repeat 32 (Nat.min space 10)) [] v Hp)
    as (c & t & -> & _).
  reflexivity.
Qed.

(** ** Flows *)

Lemma plain_Answer_value (a : Answer) : plain (Answer_value a) = true.
Proof. unfold Answer_value. destruct (nextId a), (icon a); reflexivity. Qed.

Lemma plain_Step_value (st : TroubleshootingStepData) :
  plain (Step_value st) = true.
Proof.
  unfold Step_value.
  change (forallb plain (map Answer_value (answers st)) && true = true).
  rewrite andb_true_r. apply forallb_forall. intros v Hv.
  apply in_map_iff in Hv. destruct Hv as (a & <- & _). apply plain_Answer_value.
Qed.

Lemma plain_Data_value (g : TroubleshootingData) :
  property_order (map fst g) = true -> plain (Data_value g) = true.
Proof.
  intros H. unfold Data_value. cbn [plain].
  apply andb_true_iff. split; [rewrite map_map; exact H|].
  apply forallb_forall. intros p Hp.
  apply in_map_iff in Hp. destruct Hp as (q & <- & _). apply plain_Step_value.
Qed.

Lemma Answer_value_inj (a b : Answer) : Answer_value a = Answer_value b -> a = b.
Proof.
  destruct a as [t n i], b as [t' n' i']. unfold Answer_value. simpl.
  destruct n, n', i, i'; intros E; inversion E; reflexivity.
Qed.

Lemma map_injective {A B : Type} (f : A -> B) :
  (forall x y, f x = f y -> x = y) ->
  forall l l', map f l = map f l' -> l = l'.
Proof.
  intros Hf. induction l as [|x l IH]; intros [|y l'] E; simpl in E;
    try discriminate; [reflexivity|].
  inversion E as [[Hx Hl]]. f_equal; auto.
Qed.

Lemma Step_value_inj (x y : TroubleshootingStepData) :
  Step_value x = Step_value y -> x = y.
Proof.
  destruct x as [i q a], y as [i' q' a']. unfold Step_value. simpl.
  intros E. inversion E as [[Hi Hq Ha]]. f_equal.
  apply (map_injective Answer_value Answer_value_inj). exact Ha.
Qed.

Lemma Data_value_inj (g g' : TroubleshootingData) :
  Data_value g = Data_value g' -> g = g'.
Proof.
  unfold Data_value. intros E. inversion E as [Hm]. clear E.
  revert Hm. apply map_injective. intros [k x] [k' y]. simpl.
  intros E. assert (Hk := f_equal fst E). assert (Hx := f_equal snd E).
  cbn [fst snd] in Hk, Hx. f_equal; [exact Hk|].
  apply Step_value_inj. exact Hx.
Qed.

(** C3: the editor's text of a flow parses back to that flow: the same
    keys in the same order, and under each key the same step, with its
    question and its answers in order.  The hypothesis is the property
    order every object has; it singles out the lists that are objects. *)
Theorem editor_text_round_trip (g : TroubleshootingData) :
  property_order (map fst g) = true ->
  JSON_parse (EditorView_defaultValue (Data_value g)) = Some (Data_value g) /\
  forall g', JSON_parse (EditorView_defaultValue (Data_value g))
             = Some (Data_value g') -> g' = g.
Proof.
  intros H. unfold EditorView_defaultValue.
  rewrite JSON_parse_JSON_stringify by (apply plain_Data_value; exact H).
  split; [reflexivity|].
  intros g' E. symmetry. apply Data_value_inj. congruence.
Qed.

Lemma editor_text_round_trip_witness :
  JSON_parse (EditorView_defaultValue (Data_value initialTroubleshootingData))
  = Some (Data_value initialTroubleshootingData).
Proof.
  apply (proj1 (editor_text_round_trip initialTroubleshootingData eq_refl)).
Defined.

(* ================================================================== *)
(** * Properties of loading, saving and editing *)

Ltac run_handler :=
  unfold run, completion, Action_SubmitForm, handleSubmit, handleSave, loadData,
    try_finally, try_catch, not_awaited, bind, ret, throw,
    JSON_parse_or_throw, LocalStorage_getItem, LocalStorage_setItem,
    setTroubleshootingData, setIsLoading, setActiveTab, showToast,
    console_error, pop, mount;
  cbn [fst snd activeTab isLoading troubleshootingData storage toasts
       console_errors pops unhandled_rejections form_jsonData
       item getItem_rejects setItem_rejects].

(** What [loadData] leaves behind, case by case. *)
Lemma loadData_cases (w : World) :
  run loadData w =
    if getItem_rejects (storage w)
       || match item (storage w) with
          | Some t => truthy_string t
                      && match JSON_parse t with Some _ => false | None => true end
          | None => false
          end
    then
      mkWorld (activeTab w) false (Data_value initialTroubleshootingData)
        (storage w)
        (toasts w ++ [mkToast Toast_Failure (str "Could not load custom flow")
                                            (str "Using default flow.")])
        (console_errors w
         ++ [str "Failed to load or parse troubleshooting data:"])
        (pops w) (unhandled_rejections w) (form_jsonData w)
    else
      mkWorld (activeTab w) false
        match item (storage w) with
        | Some t =>
            if truthy_string t then
              match JSON_parse t with
              | Some v => v
              | None => Data_value initialTroubleshootingData
              end
            else Data_value initialTroubleshootingData
        | None => Data_value initialTroubleshootingData
        end
        (storage w) (toasts w) (console_errors w) (pops w)
        (unhandled_rejections w) (form_jsonData w).
Proof.
  run_handler.
  destruct (getItem_rejects (storage w)); [reflexivity|].
  destruct (item (storage w)) as [t|]; [|reflexivity].
  destruct (truthy_string t); [|reflexivity].
  destruct (JSON_parse t); reflexivity.
Qed.

Lemma loadData_completes (w : World) : completion loadData w = Normal tt.
Proof.
  run_handler.
  destruct (getItem_rejects (storage w)); [reflexivity|].
  destruct (item (storage w)) as [t|]; [|reflexivity].
  destruct (truthy_string t); [|reflexivity].
  destruct (JSON_parse t); reflexivity.
Qed.

(** C2 as stated fails on an item that is present and empty: the empty text
    does not parse, the built-in flow is used, and no notification is
    emitted. *)
Lemma loadData_empty_item_counterexample :
  let w := mount (mkStorage (Some []) false false) in
  item (storage w) = Some [] /\
  JSON_parse [] = None /\
  troubleshootingData (run loadData w) = Data_value initialTroubleshootingData /\
  List.length (toasts (run loadData w)) <> 1%nat.
Proof. repeat split. discriminate. Qed.

(** C2, amended: when the item is absent or is the empty text, the built-in
    flow is used, with no notification if the read went through; when the
    item is a text that is not empty and that [JSON.parse] rejects, the
    built-in flow is used and exactly one failure notification is added. *)
Theorem loadData_fallback (w : World) :
  (truthy (item (storage w)) = false ->
   troubleshootingData (run loadData w) = Data_value initialTroubleshootingData /\
   (getItem_rejects (storage w) = false -> toasts (run loadData w) = toasts w)) /\
  (forall t,
     item (storage w) = Some t -> t <> [] -> JSON_parse t = None ->
     troubleshootingData (run loadData w) = Data_value initialTroubleshootingData /\
     toasts (run loadData w) =
       toasts w ++ [mkToast Toast_Failure (str "Could not load custom flow")
                                          (str "Using default flow.")]) /\
  completion loadData w = Normal tt.
Proof.
  rewrite loadData_cases. split; [|split].
  - intros H. destruct (getItem_rejects (storage w)); simpl.
    + split; [reflexivity | discriminate].
    + destruct (item (storage w)) as [t|]; simpl in *; [rewrite H|];
        simpl; auto.
  - intros t Ht Hne Hp. rewrite Ht, Hp.
    destruct t; [congruence|]. simpl. rewrite orb_true_r. simpl. auto.
  - apply loadData_completes.
Qed.

Lemma loadData_fallback_witness :
  troubleshootingData (run loadData (mount (mkStorage None false false)))
    = Data_value initialTroubleshootingData /\
  toasts (run loadData (mount (mkStorage (Some (str "{ start: ")) false false)))
    = [mkToast Toast_Failure (str "Could not load custom flow")
                             (str "Using default flow.")].
Proof.
  split.
  - apply (proj1 (loadData_fallback (mount (mkStorage None false false)))).
    reflexivity.
  - apply (proj1 (proj2 (loadData_fallback
             (mount (mkStorage (Some (str "{ start: ")) false false)))))
      with (t := str "{ start: ");
      [reflexivity | discriminate | reflexivity].
Defined.

Lemma loadData_absent_item (w : World) :
  item (storage w) = None ->
  troubleshootingData (run loadData w) = Data_value initialTroubleshootingData /\
  isLoading (run loadData w) = false.
Proof.
  intros H. rewrite loadData_cases, H.
  destruct (getItem_rejects (storage w)); split; reflexivity.
Qed.

(** What was saved is what a later session loads. *)
Lemma loadData_reads_saved (st : LocalStorage) (v : value) :
  plain v = true ->
  item st = Some (JSON_stringify 0 v) ->
  getItem_rejects st = false ->
  troubleshootingData (run loadData (mount st)) = v.
Proof.
  intros Hp Hi Hg. rewrite loadData_cases. unfold mount. cbn [storage].
  rewrite Hg, Hi, JSON_stringify_not_empty, JSON_parse_JSON_stringify by exact Hp.
  reflexivity.
Qed.

(** C1 as stated fails: with a write that is rejected, the state already
    holds the candidate, not the flow it held before. *)
Lemma handleSave_rejected_write_counterexample :
  let w := mkWorld (str "editor") false (Data_value initialTroubleshootingData)
             (mkStorage None false true) [] [] 0 [] [] in
  let candidate := JObject [] in
  setItem_rejects (storage w) = true /\
  troubleshootingData (run (handleSave candidate) w) = candidate /\
  troubleshootingData (run (handleSave candidate) w) <> troubleshootingData w.
Proof. repeat split. discriminate. Qed.

(** C1, amended: [handleSave] sets the state to the candidate before the
    write is attempted, whatever becomes of the write.  When the write is
    rejected the item is left as it was, so that a later session loads the
    flow that was persisted before, and [handleSave] completes with the
    rejection.  When the write goes through, the text of the item is given
    for candidates without numbers only: the text written for a number is
    not what [JSON.stringify] writes. *)
Theorem handleSave_write_order (newData : value) (w : World) :
  troubleshootingData (run (handleSave newData) w) = newData /\
  (setItem_rejects (storage w) = false ->
   completion (handleSave newData) w = Normal tt /\
   (number_free newData = true ->
    item (storage (run (handleSave newData) w))
    = Some (JSON_stringify 0 newData))) /\
  (setItem_rejects (storage w) = true ->
   completion (handleSave newData) w = Throw Error_LocalStorage /\
   storage (run (handleSave newData) w) = storage w /\
   (forall prior,
      plain prior = true ->
      item (storage w) = Some (JSON_stringify 0 prior) ->
      getItem_rejects (storage w) = false ->
      troubleshootingData
        (run loadData (mount (storage (run (handleSave newData) w)))) = prior) /\
   (item (storage w) = None ->
    troubleshootingData
      (run loadData (mount (storage (run (handleSave newData) w))))
    = Data_value initialTroubleshootingData)).
Proof.
  split; [|split].
  - run_handler. destruct (setItem_rejects (storage w)); reflexivity.
  - intros H. run_handler. rewrite H. split; [reflexivity|].
    intros _. reflexivity.
  - intros H.
    assert (E : storage (run (handleSave newData) w) = storage w)
      by (run_handler; rewrite H; reflexivity).
    split; [run_handler; rewrite H; reflexivity|]. split; [exact E|].
    rewrite E. split.
    + intros prior Hp Hi Hg. apply loadData_reads_saved; assumption.
    + intros Hi. apply (proj1 (loadData_absent_item (mount (storage w)) Hi)).
Qed.

Lemma handleSave_write_order_witness :
  let st := mkStorage (Some (JSON_stringify 0 (Data_value initialTroubleshootingData)))
              false true in
  let w := mkWorld (str "editor") false (Data_value initialTroubleshootingData)
             st [] [] 0 [] [] in
  let w_ok := mkWorld (str "editor") false (Data_value initialTroubleshootingData)
                (mkStorage None false false) [] [] 0 [] [] in
  completion (handleSave (JObject [])) w = Throw Error_LocalStorage /\
  troubleshootingData (run loadData (mount (storage (run (handleSave (JObject [])) w))))
    = Data_value initialTroubleshootingData /\
  item (storage (run (handleSave (JObject [])) w_ok)) = Some (str "{}").
Proof.
  intros st w w_ok.
  pose proof (proj2 (proj2 (handleSave_write_order (JObject []) w)) eq_refl)
    as (Hc & _ & Hl & _).
  split; [exact Hc|]. split; [apply Hl; reflexivity|].
  apply (proj2 (proj1 (proj2 (handleSave_write_order (JObject []) w_ok)) eq_refl)
           eq_refl).
Defined.

(** A save whose write goes through is what the next session loads. *)
Lemma handleSave_then_loadData (newData : value) (w : World) :
  plain newData = true ->
  setItem_rejects (storage w) = false ->
  getItem_rejects (storage w) = false ->
  troubleshootingData
    (run loadData (mount (storage (run (handleSave newData) w)))) = newData.
Proof.
  intros Hp Hs Hg. apply loadData_reads_saved; [exact Hp | |];
    run_handler; rewrite Hs; cbn [storage item getItem_rejects]; auto.
Qed.

(** C6: a submission whose text does not parse changes nothing but the
    notifications and the console: the flow, the stored item, the tab, the
    navigation stack and the text of the field are as before, [onSave] is
    not run, and one failure notification is added. *)
Theorem handleSubmit_invalid_text (onSave : value -> M unit) (w : World) :
  JSON_parse (form_jsonData w) = None ->
  completion (Action_SubmitForm onSave) w = Normal tt /\
  run (Action_SubmitForm onSave) w =
    mkWorld (activeTab w) (isLoading w) (troubleshootingData w) (storage w)
      (toasts w ++ [mkToast Toast_Failure (str "Invalid JSON")
                                          (str "Please check your syntax.")])
      (console_errors w ++ [str "Invalid JSON:"])
      (pops w) (unhandled_rejections w) (form_jsonData w).
Proof.
  intros H. run_handler. rewrite H. split; reflexivity.
Qed.

Lemma handleSubmit_invalid_text_witness :
  let w := mkWorld (str "editor") false (Data_value initialTroubleshootingData)
             (mkStorage None false false) [] [] 0 [] (str "{ start: ") in
  troubleshootingData (run (Action_SubmitForm handleSave) w)
    = Data_value initialTroubleshootingData /\
  pops (run (Action_SubmitForm handleSave) w) = 0%nat /\
  form_jsonData (run (Action_SubmitForm handleSave) w) = str "{ start: ".
Proof.
  intros w.
  rewrite (proj2 (handleSubmit_invalid_text handleSave w eq_refl)).
  repeat split.
Defined.

(* ================================================================== *)
(** * The fuel of [JSON_parse] is enough for any text *)

Lemma skip_ws_length (s : jsstring) :
  (List.length (skip_ws s) <= List.length s)%nat.
Proof.
  induction s as [|c s IH]; simpl; [lia|].
  destruct (is_ws c); simpl; lia.
Qed.

Lemma starts_with_length (c : N) (s r : jsstring) :
  starts_with c s = Some r -> (List.length r < List.length s)%nat.
Proof.
  destruct s as [|d s]; simpl; [discriminate|].
  destruct (d =? c); [|discriminate]. intros E; inversion E; subst. lia.
Qed.

Lemma cons_unit_length (c : N) (o : option (jsstring * jsstring))
    (x r : jsstring) (n : nat) :
  cons_unit c o = Some (x, r) ->
  (forall x' r', o = Some (x', r') -> (List.length r' < n)%nat) ->
  (List.length r < n)%nat.
Proof.
  destruct o as [[x' r']|]; simpl; [|discriminate].
  intros E H. inversion E; subst. eapply H; reflexivity.
Qed.

Lemma parse_chars_length (s x r : jsstring) :
  parse_chars s = Some (x, r) -> (List.length r < List.length s)%nat.
Proof.
  remember (List.length s) as n eqn:Hn.
  assert (Hle : (List.length s <= n)%nat) by lia. clear Hn.
  revert s x r Hle. induction n as [|n IH]; intros s x r Hle.
  - destruct s; [discriminate | simpl in Hle; lia].
  - destruct s as [|c s]; [discriminate|]. simpl in Hle. simpl.
    destruct (c =? 34); [intros E; inversion E; subst; lia|].
    destruct (c =? 92).
    + destruct s as [|e s]; [discriminate|]. simpl in Hle.
      destruct (e =? 117).
      * destruct s as [|h1 [|h2 [|h3 [|h4 s]]]]; try discriminate.
        simpl in Hle. destruct (hex4 h1 h2 h3 h4); [|discriminate].
        intros E. eapply cons_unit_length; [exact E|].
        intros x' r' E'. apply IH in E'; lia.
      * destruct (escape_char e); [|discriminate].
        intros E. eapply cons_unit_length; [exact E|].
        intros x' r' E'. apply IH in E'; lia.
    + destruct (c <? 32); [discriminate|].
      intros E. eapply cons_unit_length; [exact E|].
      intros x' r' E'. apply IH in E'; lia.
Qed.

Lemma span_digits_length (s ds r : jsstring) :
  span_digits s = (ds, r) -> (List.length r <= List.length s)%nat.
Proof.
  revert ds r. induction s as [|c s IH]; simpl; intros ds r.
  - intros E; inversion E; subst; simpl; lia.
  - destruct (is_digit c).
    + destruct (span_digits s) as [ds' r'] eqn:E'.
      intros E; inversion E; subst. specialize (IH _ _ eq_refl). lia.
    + intros E; inversion E; subst; simpl; lia.
Qed.

Lemma lex_number_length (s l r : jsstring) :
  lex_number s = Some (l, r) -> (List.length r < List.length s)%nat.
Proof.
  unfold lex_number.
  destruct (lex_minus s) as [sg r0] eqn:E0.
  assert (H0 : (List.length r0 <= List.length s)%nat).
  { unfold lex_minus in E0. destruct s as [|c s]; [inversion E0; subst; lia|].
    destruct (c =? 45); inversion E0; subst; simpl; lia. }
  destruct (lex_int r0) as [[i r1]|] eqn:E1; [|discriminate].
  assert (H1 : (List.length r1 < List.length r0)%nat).
  { unfold lex_int in E1. destruct r0 as [|c t]; [discriminate|].
    destruct (c =? 48); [inversion E1; subst; simpl; lia|].
    destruct (is_digit c); [|discriminate].
    destruct (span_digits t) as [ds r'] eqn:Ed. inversion E1; subst.
    apply span_digits_length in Ed. simpl; lia. }
  destruct (lex_frac r1) as [[f r2]|] eqn:E2; [|discriminate].
  assert (H2 : (List.length r2 <= List.length r1)%nat).
  { unfold lex_frac in E2. destruct r1 as [|c t]; [inversion E2; subst; lia|].
    destruct (c =? 46); [|inversion E2; subst; lia].
    destruct (span_digits t) as [[|d ds] r'] eqn:Ed; [discriminate|].
    inversion E2; subst. apply span_digits_length in Ed. simpl; lia. }
  destruct (lex_exp r2) as [[e r3]|] eqn:E3; [|discriminate].
  assert (H3 : (List.length r3 <= List.length r2)%nat).
  { unfold lex_exp in E3. destruct r2 as [|c t]; [inversion E3; subst; lia|].
    destruct ((c =? 101) || (c =? 69)); [|inversion E3; subst; lia].
    destruct (lex_sign t) as [sg' t1] eqn:Es.
    assert (Hs : (List.length t1 <= List.length t)%nat).
    { unfold lex_sign in Es. destruct t as [|d t]; [inversion Es; subst; lia|].
      destruct ((d =? 43) || (d =? 45)); inversion Es; subst; simpl; lia. }
    destruct (span_digits t1) as [[|d ds] r'] eqn:Ed; [discriminate|].
    inversion E3; subst. apply span_digits_length in Ed. simpl; lia. }
  intros E; inversion E; subst. lia.
Qed.

Lemma keyword_length (w : string) (v v' : value) (s r : jsstring) :
  keyword w v s = Parsed v' r ->
  (List.length r + List.length (str w) = List.length s)%nat.
Proof.
  unfold keyword.
  destruct (match_literal (str w) s) as [r'|] eqn:E; [|discriminate].
  intros E'; inversion E'; subst. apply match_literal_inv in E.
  rewrite E, length_app. lia.
Qed.

(** A successful parse consumes at least one code unit. *)
Lemma parse_consumes (fuel : nat) :
  (forall s v r, parse_value fuel s = Parsed v r ->
                 (List.length r < List.length s)%nat) /\
  (forall s vs r, parse_elements fuel s = Parsed vs r ->
                  (List.length r < List.length s)%nat) /\
  (forall s ms r, parse_members fuel s = Parsed ms r ->
                  (List.length r < List.length s)%nat).
Proof.
  induction fuel as [|f (IHv & IHe & IHm)]; [repeat split; discriminate|].
  split; [|split]; intros s.
  - intros v r. simpl.
    pose proof (skip_ws_length s) as Hs.
    destruct (skip_ws s) as [|c t]; [discriminate|]. simpl in Hs.
    destruct (c =? 123).
    { pose proof (skip_ws_length t) as Ht.
      destruct (starts_with 125 (skip_ws t)) as [r'|] eqn:E1.
      - apply starts_with_length in E1. intros E; inversion E; subst. lia.
      - destruct (parse_members f t) as [ms r'| |] eqn:E2; try discriminate.
        apply IHm in E2. intros E; inversion E; subst. lia. }
    destruct (c =? 91).
    { pose proof (skip_ws_length t) as Ht.
      destruct (starts_with 93 (skip_ws t)) as [r'|] eqn:E1.
      - apply starts_with_length in E1. intros E; inversion E; subst. lia.
      - destruct (parse_elements f t) as [vs r'| |] eqn:E2; try discriminate.
        apply IHe in E2. intros E; inversion E; subst. lia. }
    destruct (c =? 34).
    { destruct (parse_chars t) as [[x r']|] eqn:E1; [|discriminate].
      apply parse_chars_length in E1. intros E; inversion E; subst. lia. }
    destruct (c =? 116);
      [intros E; apply keyword_length in E; simpl in E; lia|].
    destruct (c =? 102);
      [intros E; apply keyword_length in E; simpl in E; lia|].
    destruct (c =? 110);
      [intros E; apply keyword_length in E; simpl in E; lia|].
    destruct (lex_number (c :: t)) as [[l r']|] eqn:E1; [|discriminate].
    apply lex_number_length in E1. simpl in E1.
    intros E; inversion E; subst. lia.
  - intros vs r. rewrite parse_elements_step.
    destruct (parse_value f s) as [v r0| |] eqn:E0; try discriminate.
    apply IHv in E0. pose proof (skip_ws_length r0) as Hs.
    destruct (skip_ws r0) as [|c t]; [discriminate|]. simpl in Hs.
    destruct (c =? 93); [intros E; inversion E; subst; lia|].
    destruct (c =? 44); [|discriminate].
    destruct (parse_elements f t) as [vs' r'| |] eqn:E1; try discriminate.
    apply IHe in E1. intros E; inversion E; subst. lia.
  - intros ms r. rewrite parse_members_step.
    pose proof (skip_ws_length s) as Hs.
    destruct (starts_with 34 (skip_ws s)) as [r0|] eqn:E0; [|discriminate].
    apply starts_with_length in E0.
    destruct (parse_chars r0) as [[k r1]|] eqn:E1; [|discriminate].
    apply parse_chars_length in E1. pose proof (skip_ws_length r1) as Hs1.
    destruct (starts_with 58 (skip_ws r1)) as [r2|] eqn:E2; [|discriminate].
    apply starts_with_length in E2.
    destruct (parse_value f r2) as [v r3| |] eqn:E3; try discriminate.
    apply IHv in E3. pose proof (skip_ws_length r3) as Hs3.
    destruct (skip_ws r3) as [|c t]; [discriminate|]. simpl in Hs3.
    destruct (c =? 125); [intros E; inversion E; subst; lia|].
    destruct (c =? 44); [|discriminate].
    destruct (parse_members f t) as [ms' r'| |] eqn:E4; try discriminate.
    apply IHm in E4. intros E; inversion E; subst. lia.
Qed.

(** With fuel twice the length of the text and one more, no call runs out. *)
Lemma parse_fuel_suffices (fuel : nat) :
  (forall s, (2 * List.length s + 1 <= fuel)%nat ->
             parse_value fuel s <> OutOfFuel) /\
  (forall s, (2 * List.length s + 2 <= fuel)%nat ->
             parse_elements fuel s <> OutOfFuel) /\
  (forall s, (2 * List.length s + 2 <= fuel)%nat ->
             parse_members fuel s <> OutOfFuel).
Proof.
  induction fuel as [|f (IHv & IHe & IHm)];
    [repeat split; intros s H; simpl in H; lia|].
  destruct (parse_consumes f) as (Cv & Ce & Cm).
  split; [|split]; intros s Hf.
  - simpl.
    pose proof (skip_ws_length s) as Hs.
    destruct (skip_ws s) as [|c t]; [discriminate|]. simpl in Hs.
    destruct (c =? 123).
    { destruct (starts_with 125 (skip_ws t)); [discriminate|].
      specialize (IHm t ltac:(lia)).
      destruct (parse_members f t); congruence. }
    destruct (c =? 91).
    { destruct (starts_with 93 (skip_ws t)); [discriminate|].
      specialize (IHe t ltac:(lia)).
      destruct (parse_elements f t); congruence. }
    destruct (c =? 34); [destruct (parse_chars t) as [[? ?]|]; discriminate|].
    unfold keyword.
    destruct (c =? 116); [destruct (match_literal _ _); discriminate|].
    destruct (c =? 102); [destruct (match_literal _ _); discriminate|].
    destruct (c =? 110); [destruct (match_literal _ _); discriminate|].
    destruct (lex_number (c :: t)) as [[? ?]|]; discriminate.
  - rewrite parse_elements_step.
    specialize (IHv s ltac:(lia)).
    destruct (parse_value f s) as [v r0| |] eqn:E0; try congruence.
    apply Cv in E0. pose proof (skip_ws_length r0) as Hs.
    destruct (skip_ws r0) as [|c t]; [discriminate|]. simpl in Hs.
    destruct (c =? 93); [discriminate|].
    destruct (c =? 44); [|discriminate].
    specialize (IHe t ltac:(lia)).
    destruct (parse_elements f t); congruence.
  - rewrite parse_members_step.
    pose proof (skip_ws_length s) as Hs.
    destruct (starts_with 34 (skip_ws s)) as [r0|] eqn:E0; [|discriminate].
    apply starts_with_length in E0.
    destruct (parse_chars r0) as [[k r1]|] eqn:E1; [|discriminate].
    apply parse_chars_length in E1. pose proof (skip_ws_length r1) as Hs1.
    destruct (starts_with 58 (skip_ws r1)) as [r2|] eqn:E2; [|discriminate].
    apply starts_with_length in E2.
    specialize (IHv r2 ltac:(lia)).
    destruct (parse_value f r2) as [v r3| |] eqn:E3; try congruence.
    apply Cv in E3. pose proof (skip_ws_length r3) as Hs3.
    destruct (skip_ws r3) as [|c t]; [discriminate|]. simpl in Hs3.
    destruct (c =? 125); [discriminate|].
    destruct (c =? 44); [|discriminate].
    specialize (IHm t ltac:(lia)).
    destruct (parse_members f t); congruence.
Qed.

(** [JSON_parse] never fails for lack of fuel: [None] is a [SyntaxError]. *)
Lemma JSON_parse_total (text : jsstring) :
  parse_value (2 * List.length text + 2) text <> OutOfFuel.
Proof. apply (proj1 (parse_fuel_suffices _)). lia. Qed.

(* ================================================================== *)
(** * Every parsed object has the property order of an ordinary object *)

(** ** Array indices are canonical numerals *)

Lemma decimal_value_acc (ds : jsstring) (acc : N) :
  decimal_value acc ds
  = acc * 10 ^ N.of_nat (List.length ds) + decimal_value 0 ds.
Proof.
  revert acc. induction ds as [|d ds IH]; intros acc.
  - simpl. lia.
  - cbn [decimal_value Datatypes.length].
    rewrite (IH (10 * acc + (d - 48))), (IH (10 * 0 + (d - 48))).
    rewrite Nat2N.inj_succ, N.pow_succ_r'. lia.
Qed.

Lemma decimal_value_bound (ds : jsstring) :
  forallb is_digit ds = true ->
  decimal_value 0 ds < 10 ^ N.of_nat (List.length ds).
Proof.
  induction ds as [|d ds IH]; intros H.
  - simpl. lia.
  - cbn [forallb] in H. apply andb_true_iff in H. destruct H as [Hd H].
    unfold is_digit in Hd. rewrite andb_true_iff, !N.leb_le in Hd.
    cbn [decimal_value Datatypes.length]. rewrite decimal_value_acc.
    rewrite Nat2N.inj_succ, N.pow_succ_r'. specialize (IH H). nia.
Qed.

Lemma decimal_value_inj (ds ds' : jsstring) :
  List.length ds = List.length ds' ->
  forallb is_digit ds = true -> forallb is_digit ds' = true ->
  decimal_value 0 ds = decimal_value 0 ds' -> ds = ds'.
Proof.
  revert ds'. induction ds as [|d ds IH]; intros [|d' ds'] Hl H H' E;
    try discriminate; [reflexivity|].
  cbn [forallb] in H, H'. apply andb_true_iff in H, H'.
  destruct H as [Hd H], H' as [Hd' H'].
  unfold is_digit in Hd, Hd'. rewrite andb_true_iff, !N.leb_le in Hd, Hd'.
  cbn [decimal_value] in E.
  rewrite (decimal_value_acc ds), (decimal_value_acc ds') in E.
  injection Hl as Hl.
  pose proof (decimal_value_bound ds H) as B.
  pose proof (decimal_value_bound ds' H') as B'.
  rewrite <- Hl in *.
  set (p := 10 ^ N.of_nat (List.length ds)) in *.
  destruct (N.div_mod_unique p (10 * 0 + (d - 48)) (10 * 0 + (d' - 48))
              (decimal_value 0 ds) (decimal_value 0 ds') B B') as [Eq E'];
    [lia|].
  assert (d = d') as -> by lia.
  f_equal. apply IH; auto.
Qed.

Lemma array_index_digits (k : jsstring) (i : N) :
  array_index k = Some i ->
  forallb is_digit k = true /\ i = decimal_value 0 k /\
  exists c t, k = c :: t /\ (c = 48 -> t = []).
Proof.
  unfold array_index. destruct k as [|c t]; [discriminate|].
  destruct (forallb is_digit (c :: t)) eqn:Hd; [|discriminate].
  destruct (List.length (c :: t) <=? 10)%nat; [|discriminate].
  destruct (negb (c =? 48) || match t with [] => true | _ :: _ => false end)
    eqn:Hz; [|discriminate].
  cbn [andb]. destruct (decimal_value 0 (c :: t) <=? 4294967294); [|discriminate].
  intros E; inversion E; subst. repeat split. exists c, t. split; [reflexivity|].
  intros ->. simpl in Hz. destruct t; [reflexivity | discriminate].
Qed.

Lemma decimal_value_lower (c : N) (t : jsstring) :
  is_digit c = true -> c <> 48 ->
  10 ^ N.of_nat (List.length t) <= decimal_value 0 (c :: t).
Proof.
  intros Hd Hc. unfold is_digit in Hd. rewrite andb_true_iff, !N.leb_le in Hd.
  cbn [decimal_value]. rewrite decimal_value_acc.
  assert (1 <= 10 * 0 + (c - 48)) by lia.
  pose proof (N.le_0_l (decimal_value 0 t)). nia.
Qed.

Lemma array_index_inj (k k' : jsstring) (i : N) :
  array_index k = Some i -> array_index k' = Some i -> k = k'.
Proof.
  intros H H'.
  apply array_index_digits in H. destruct H as (Hd & Hi & c & t & -> & Hz).
  apply array_index_digits in H'. destruct H' as (Hd' & Hi' & c' & t' & -> & Hz').
  assert (E : decimal_value 0 (c :: t) = decimal_value 0 (c' :: t')) by congruence.
  clear Hi Hi' i.
  pose proof Hd as Hd0. pose proof Hd' as Hd0'.
  cbn [forallb] in Hd0, Hd0'. apply andb_true_iff in Hd0, Hd0'.
  destruct Hd0 as [Hc Ht], Hd0' as [Hc' Ht'].
  destruct (N.eq_dec c 48) as [->|Nc], (N.eq_dec c' 48) as [->|Nc'].
  - rewrite (Hz eq_refl), (Hz' eq_refl). reflexivity.
  - rewrite (Hz eq_refl) in E. change (decimal_value 0 [48]) with 0 in E.
    pose proof (decimal_value_lower c' t' Hc' Nc') as L.
    assert (10 ^ N.of_nat (List.length t') <> 0) by (apply N.pow_nonzero; lia).
    exfalso. lia.
  - rewrite (Hz' eq_refl) in E.
    pose proof (decimal_value_lower c t Hc Nc) as L.
    assert (10 ^ N.of_nat (List.length t) <> 0) by (apply N.pow_nonzero; lia).
    change (decimal_value 0 [48]) with 0 in E. exfalso. lia.
  - apply decimal_value_inj; auto.
    pose proof (decimal_value_lower c t Hc Nc) as L.
    pose proof (decimal_value_lower c' t' Hc' Nc') as L'.
    pose proof (decimal_value_bound (c :: t) Hd) as B.
    pose proof (decimal_value_bound (c' :: t') Hd') as B'.
    cbn [Datatypes.length] in B, B' |- *.
    destruct (Nat.lt_trichotomy (List.length t) (List.length t'))
      as [Lt|[Eq|Gt]]; [exfalso | congruence | exfalso].
    + assert (10 ^ N.of_nat (S (List.length t)) <= 10 ^ N.of_nat (List.length t'))
        by (apply N.pow_le_mono_r; lia).
      lia.
    + assert (10 ^ N.of_nat (S (List.length t')) <= 10 ^ N.of_nat (List.length t))
        by (apply N.pow_le_mono_r; lia).
      lia.
Qed.

(** ** [CreateDataProperty] keeps the property order *)

Lemma has_own_property_false {A : Type} (k : jsstring) (o : list (jsstring * A)) :
  has_own_property k o = false -> Forall (fun k' => k' <> k) (map fst o).
Proof.
  unfold has_own_property. induction o as [|[k' a'] o IH]; simpl; [constructor|].
  rewrite orb_false_iff. intros [E H]. constructor; [|auto].
  apply jsstring_eqb_neq in E. congruence.
Qed.

Lemma set_own_property_keys {A : Type} (k : jsstring) (a : A)
    (o : list (jsstring * A)) :
  map fst (set_own_property k a o) = map fst o.
Proof.
  induction o as [|[k' a'] o IH]; simpl; [reflexivity|].
  destruct (jsstring_eqb k k'); simpl; [|rewrite IH]; reflexivity.
Qed.

Lemma property_order_snoc (ks : list jsstring) (k : jsstring) :
  property_order ks = true ->
  Forall (fun k' => precedes k' k = true) ks ->
  property_order (ks ++ [k]) = true.
Proof.
  induction ks as [|k' ks IH]; simpl; [reflexivity|].
  rewrite andb_true_iff. intros [H1 H2] H. inversion H as [|? ? Hk Hks]; subst.
  rewrite forallb_app, H1, IH by assumption. simpl. rewrite Hk. reflexivity.
Qed.

Lemma add_index_property_forallb {A : Type} (P : jsstring -> bool) (i : N)
    (k : jsstring) (a : A) (o : list (jsstring * A)) :
  P k = true -> forallb P (map fst o) = true ->
  forallb P (map fst (add_index_property i k a o)) = true.
Proof.
  intros Hk. induction o as [|[k' a'] o IH]; simpl; [rewrite Hk; reflexivity|].
  rewrite andb_true_iff. intros [H1 H2].
  destruct (array_index k') as [j|]; [destruct (j <? i)|]; simpl;
    rewrite ?Hk, ?H1, ?H2, ?IH by assumption; reflexivity.
Qed.

Lemma add_index_property_order {A : Type} (i : N) (k : jsstring) (a : A)
    (o : list (jsstring * A)) :
  array_index k = Some i ->
  Forall (fun k' => k' <> k) (map fst o) ->
  property_order (map fst o) = true ->
  property_order (map fst (add_index_property i k a o)) = true.
Proof.
  intros Hk. induction o as [|[k' a'] o IH]; intros Hne Ho; [reflexivity|].
  simpl in Hne, Ho. inversion Hne as [|? ? Hk' Hne']; subst.
  apply andb_true_iff in Ho. destruct Ho as [H1 H2].
  cbn [add_index_property].
  assert (Hins : forallb (precedes k) (map fst o) = true ->
                 precedes k k' = true ->
                 property_order (map fst ((k, a) :: (k', a') :: o)) = true).
  { intros Ha Hb. simpl. rewrite Hb, Ha, H1, H2. reflexivity. }
  destruct (array_index k') as [j|] eqn:Ej.
  - destruct (N.ltb_spec j i) as [Lt|Ge].
    + simpl. rewrite IH by assumption. rewrite andb_true_r.
      apply add_index_property_forallb; [|exact H1].
      unfold precedes. rewrite Ej, Hk. apply N.ltb_lt. exact Lt.
    + assert (Lt : i < j).
      { destruct (N.eq_dec i j) as [->|]; [|lia].
        destruct Hk'. apply (array_index_inj _ _ j); assumption. }
      apply Hins.
      * apply forallb_forall. intros x Hx.
        rewrite forallb_forall in H1. specialize (H1 x Hx).
        unfold precedes in H1 |- *. rewrite Ej in H1. rewrite Hk.
        destruct (array_index x) as [m|]; [|reflexivity].
        apply N.ltb_lt in H1. apply N.ltb_lt. lia.
      * unfold precedes. rewrite Hk, Ej. apply N.ltb_lt. exact Lt.
  - apply Hins.
    + apply forallb_forall. intros x Hx.
      rewrite forallb_forall in H1. specialize (H1 x Hx).
      unfold precedes in H1 |- *. rewrite Ej in H1. rewrite Hk.
      destruct (array_index x); [discriminate | reflexivity].
    + unfold precedes. rewrite Hk, Ej. reflexivity.
Qed.

Lemma CreateDataProperty_order {A : Type} (o : list (jsstring * A))
    (k : jsstring) (a : A) :
  property_order (map fst o) = true ->
  property_order (map fst (CreateDataProperty o k a)) = true.
Proof.
  intros Ho. unfold CreateDataProperty.
  destruct (has_own_property k o) eqn:Hown.
  - rewrite set_own_property_keys. exact Ho.
  - apply has_own_property_false in Hown.
    destruct (array_index k) as [i|] eqn:Ek.
    + apply add_index_property_order; assumption.
    + rewrite map_app. cbn [map fst]. apply property_order_snoc; [exact Ho|].
      rewrite Forall_forall in Hown |- *. intros x Hx. specialize (Hown x Hx).
      unfold precedes. rewrite Ek. destruct (array_index x); [reflexivity|].
      apply negb_true_iff, jsstring_eqb_neq. exact Hown.
Qed.

Lemma CreateDataProperty_values {A : Type} (Q : A -> bool)
    (o : list (jsstring * A)) (k : jsstring) (a : A) :
  Q a = true -> forallb (fun p => Q (snd p)) o = true ->
  forallb (fun p => Q (snd p)) (CreateDataProperty o k a) = true.
Proof.
  intros Ha Ho. unfold CreateDataProperty.
  destruct (has_own_property k o).
  - induction o as [|[k' a'] o IH]; simpl in *; [reflexivity|].
    apply andb_true_iff in Ho. destruct Ho as [H1 H2].
    destruct (jsstring_eqb k k'); simpl; rewrite ?Ha, ?H1, ?H2, ?IH by assumption;
      reflexivity.
  - destruct (array_index k) as [i|].
    + induction o as [|[k' a'] o IH]; simpl in *; [rewrite Ha; reflexivity|].
      apply andb_true_iff in Ho. destruct Ho as [H1 H2].
      destruct (array_index k') as [j|]; [destruct (j <? i)|]; simpl;
        rewrite ?Ha, ?H1, ?H2, ?IH by assumption; reflexivity.
    + rewrite forallb_app, Ho. simpl. rewrite Ha. reflexivity.
Qed.

Lemma fold_CreateDataProperty_ordered (ms acc : list (jsstring * value)) :
  forallb (fun p => ordered (snd p)) ms = true ->
  ordered (JObject acc) = true ->
  ordered (JObject (fold_left (fun o p => CreateDataProperty o (fst p) (snd p))
                      ms acc)) = true.
Proof.
  revert acc. induction ms as [|[k v] ms IH]; intros acc Hms Hacc; [exact Hacc|].
  simpl in Hms. apply andb_true_iff in Hms. destruct Hms as [Hv Hms].
  simpl fold_left. apply IH; [exact Hms|].
  simpl in Hacc |- *. apply andb_true_iff in Hacc. destruct Hacc as [H1 H2].
  rewrite CreateDataProperty_order by exact H1.
  rewrite (CreateDataProperty_values ordered) by assumption. reflexivity.
Qed.

(** ** Parsed values *)

Lemma parse_ordered (fuel : nat) :
  (forall s v r, parse_value fuel s = Parsed v r -> ordered v = true) /\
  (forall s vs r, parse_elements fuel s = Parsed vs r ->
                  forallb ordered vs = true) /\
  (forall s ms r, parse_members fuel s = Parsed ms r ->
                  forallb (fun p => ordered (snd p)) ms = true).
Proof.
  induction fuel as [|f (IHv & IHe & IHm)]; [repeat split; discriminate|].
  split; [|split]; intros s.
  - intros v r. simpl.
    destruct (skip_ws s) as [|c t]; [discriminate|].
    destruct (c =? 123).
    { destruct (starts_with 125 (skip_ws t)) as [r'|].
      - intros E; inversion E; subst. reflexivity.
      - destruct (parse_members f t) as [ms r'| |] eqn:E2; try discriminate.
        apply IHm in E2. intros E; inversion E; subst.
        apply fold_CreateDataProperty_ordered; [exact E2 | reflexivity]. }
    destruct (c =? 91).
    { destruct (starts_with 93 (skip_ws t)) as [r'|].
      - intros E; inversion E; subst. reflexivity.
      - destruct (parse_elements f t) as [vs r'| |] eqn:E2; try discriminate.
        apply IHe in E2. intros E; inversion E; subst. exact E2. }
    destruct (c =? 34).
    { destruct (parse_chars t) as [[x r']|]; [|discriminate].
      intros E; inversion E; subst. reflexivity. }
    unfold keyword.
    destruct (c =? 116);
      [destruct (match_literal _ _); [|discriminate];
       intros E; inversion E; subst; reflexivity|].
    destruct (c =? 102);
      [destruct (match_literal _ _); [|discriminate];
       intros E; inversion E; subst; reflexivity|].
    destruct (c =? 110);
      [destruct (match_literal _ _); [|discriminate];
       intros E; inversion E; subst; reflexivity|].
    destruct (lex_number (c :: t)) as [[l r']|]; [|discriminate].
    intros E; inversion E; subst. reflexivity.
  - intros vs r. rewrite parse_elements_step.
    destruct (parse_value f s) as [v r0| |] eqn:E0; try discriminate.
    apply IHv in E0.
    destruct (skip_ws r0) as [|c t]; [discriminate|].
    destruct (c =? 93);
      [intros E; inversion E; subst; simpl; rewrite E0; reflexivity|].
    destruct (c =? 44); [|discriminate].
    destruct (parse_elements f t) as [vs' r'| |] eqn:E1; try discriminate.
    apply IHe in E1. intros E; inversion E; subst. simpl. rewrite E0, E1.
    reflexivity.
  - intros ms r. rewrite parse_members_step.
    destruct (starts_with 34 (skip_ws s)) as [r0|]; [|discriminate].
    destruct (parse_chars r0) as [[k r1]|]; [|discriminate].
    destruct (starts_with 58 (skip_ws r1)) as [r2|]; [|discriminate].
    destruct (parse_value f r2) as [v r3| |] eqn:E3; try discriminate.
    apply IHv in E3.
    destruct (skip_ws r3) as [|c t]; [discriminate|].
    destruct (c =? 125);
      [intros E; inversion E; subst; simpl; rewrite E3; reflexivity|].
    destruct (c =? 44); [|discriminate].
    destruct (parse_members f t) as [ms' r'| |] eqn:E4; try discriminate.
    apply IHm in E4. intros E; inversion E; subst. simpl. rewrite E3, E4.
    reflexivity.
Qed.

(** Whatever [JSON.parse] returns has its objects in property order: the
    hypothesis of the round trip holds of every flow the editor can save. *)
Lemma JSON_parse_ordered (text : jsstring) (v : value) :
  JSON_parse text = Some v -> ordered v = true.
Proof.
  unfold JSON_parse.
  destruct (parse_value (2 * List.length text + 2) text) as [v' r| |] eqn:E;
    try discriminate.
  destruct (skip_ws r); [|discriminate].
  intros E'; inversion E'; subst.
  apply (proj1 (parse_ordered _)) in E. exact E.
Qed.

(* ================================================================== *)
(** * Further properties: loading and saving *)

Lemma skip_ws_blank (t : jsstring) : forallb is_ws t = true -> skip_ws t = [].
Proof.
  induction t as [|c t IH]; simpl; [reflexivity|].
  rewrite andb_true_iff. intros [-> H]. auto.
Qed.

Lemma JSON_parse_blank (t : jsstring) :
  forallb is_ws t = true -> JSON_parse t = None.
Proof.
  intros H. unfold JSON_parse.
  replace (2 * List.length t + 2)%nat with (S (2 * List.length t + 1)) by lia.
  simpl parse_value. rewrite (skip_ws_blank t H). reflexivity.
Qed.

Lemma JSON_parse_not_empty (t : jsstring) (v : value) :
  JSON_parse t = Some v -> truthy_string t = true.
Proof.
  destruct t; [|reflexivity]. rewrite (JSON_parse_blank [] eq_refl). discriminate.
Qed.

Lemma plain_split (v : value) : plain v = ordered v && number_free v.
Proof.
  induction v as [ | b | l | s | vs IH | ps IH ] using value_ind;
    try reflexivity.
  - simpl. induction IH as [|v vs Hv Hvs IHvs]; [reflexivity|].
    simpl. rewrite Hv, IHvs.
    destruct (ordered v), (number_free v), (forallb ordered vs); reflexivity.
  - simpl. destruct (property_order (map fst ps)); [|reflexivity]. simpl.
    induction IH as [|p ps Hp Hps IHps]; [reflexivity|].
    simpl. rewrite Hp, IHps.
    destruct (ordered (snd p)), (number_free (snd p)),
      (forallb (fun p => ordered (snd p)) ps); reflexivity.
Qed.

Lemma JSON_parse_plain (t : jsstring) (v : value) :
  JSON_parse t = Some v -> number_free v = true -> plain v = true.
Proof.
  intros H Hn. rewrite plain_split, (JSON_parse_ordered t v H), Hn. reflexivity.
Qed.

(** X1: whatever the storage holds or does, [loadData] completes normally
    and ends the loading state; it leaves the stored item, the tab, the
    navigation stack and the editor's field alone, and adds at most one
    notification, the failure one. *)
Theorem loadData_settles (w : World) :
  completion loadData w = Normal tt /\
  isLoading (run loadData w) = false /\
  storage (run loadData w) = storage w /\
  activeTab (run loadData w) = activeTab w /\
  pops (run loadData w) = pops w /\
  unhandled_rejections (run loadData w) = unhandled_rejections w /\
  form_jsonData (run loadData w) = form_jsonData w /\
  (toasts (run loadData w) = toasts w \/
   toasts (run loadData w) =
     toasts w ++ [mkToast Toast_Failure (str "Could not load custom flow")
                                        (str "Using default flow.")]).
Proof.
  split; [apply loadData_completes|]. rewrite loadData_cases.
  destruct (getItem_rejects (storage w) || _); cbn; repeat split; auto.
Qed.

(** X2: a stored text that parses is adopted as it is, whatever its shape:
    the state becomes the parsed value and nothing is notified or logged. *)
Theorem loadData_adopts_parsed_item (w : World) (t : jsstring) (v : value) :
  getItem_rejects (storage w) = false ->
  item (storage w) = Some t ->
  JSON_parse t = Some v ->
  troubleshootingData (run loadData w) = v /\
  toasts (run loadData w) = toasts w /\
  console_errors (run loadData w) = console_errors w.
Proof.
  intros Hg Hi Hp. rewrite loadData_cases, Hg, Hi, Hp.
  rewrite (JSON_parse_not_empty t v Hp). cbn. auto.
Qed.

Lemma loadData_adopts_parsed_item_witness :
  troubleshootingData
    (run loadData (mount (mkStorage (Some (str "42")) false false)))
  = JNumber (str "42").
Proof.
  apply (proj1 (loadData_adopts_parsed_item
                  (mount (mkStorage (Some (str "42")) false false))
                  (str "42") (JNumber (str "42")) eq_refl eq_refl eq_refl)).
Defined.

(** X3: when the read of the item is rejected, the built-in flow is used
    and exactly one failure notification is added, whatever the item is. *)
Theorem loadData_rejected_read (w : World) :
  getItem_rejects (storage w) = true ->
  troubleshootingData (run loadData w) = Data_value initialTroubleshootingData /\
  toasts (run loadData w) =
    toasts w ++ [mkToast Toast_Failure (str "Could not load custom flow")
                                       (str "Using default flow.")].
Proof.
  intros Hg. rewrite loadData_cases, Hg. cbn. auto.
Qed.

Lemma loadData_rejected_read_witness :
  let st := mkStorage (Some (JSON_stringify 0 (JObject []))) true false in
  troubleshootingData (run loadData (mount st))
  = Data_value initialTroubleshootingData.
Proof.
  intros st. apply (proj1 (loadData_rejected_read (mount st) eq_refl)).
Defined.

(** X4: what [handleSave] has written is what the next session loads: after
    a save whose write goes through, a fresh mount followed by [loadData]
    holds the saved value, is no longer loading, and shows no notification. *)
Theorem save_then_restart (newData : value) (w : World) :
  plain newData = true ->
  setItem_rejects (storage w) = false ->
  getItem_rejects (storage w) = false ->
  let w' := run loadData (mount (storage (run (handleSave newData) w))) in
  troubleshootingData w' = newData /\ toasts w' = [] /\ isLoading w' = false.
Proof.
  intros Hp Hs Hg w'. subst w'.
  assert (Hi : item (storage (run (handleSave newData) w))
               = Some (JSON_stringify 0 newData))
    by (run_handler; rewrite Hs; reflexivity).
  assert (Hg' : getItem_rejects (storage (run (handleSave newData) w)) = false)
    by (run_handler; rewrite Hs; exact Hg).
  rewrite loadData_cases. unfold mount. cbn [storage toasts].
  rewrite Hg', Hi, JSON_stringify_not_empty, JSON_parse_JSON_stringify by exact Hp.
  cbn. auto.
Qed.

Lemma save_then_restart_witness :
  let w := mount (mkStorage None false false) in
  troubleshootingData
    (run loadData
       (mount (storage (run (handleSave (Data_value initialTroubleshootingData)) w))))
  = Data_value initialTroubleshootingData.
Proof.
  intros w.
  apply (proj1 (save_then_restart (Data_value initialTroubleshootingData) w
                  eq_refl eq_refl eq_refl)).
Defined.

(* ================================================================== *)
(** * Further properties: the editor *)

(** X5: a submission whose text parses to a value without numbers and
    whose write goes through: [Command] shows the flow view on the parsed
    value, the item holds its compact serialization, one success
    notification is added, [pop] is called once and no rejection is left
    unhandled. *)
Theorem submit_saves_parsed_value (jsonData : jsstring) (v : value) (w : World) :
  JSON_parse jsonData = Some v ->
  number_free v = true ->
  setItem_rejects (storage w) = false ->
  let w' := run (handleSubmit handleSave jsonData) w in
  completion (handleSubmit handleSave jsonData) w = Normal tt /\
  Command w' = Screen_FlowView (isLoading w) v /\
  item (storage w') = Some (JSON_stringify 0 v) /\
  toasts w' = toasts w ++ [mkToast Toast_Success (str "Flow Saved!")
                             (str "Your changes have been saved.")] /\
  pops w' = S (pops w) /\
  unhandled_rejections w' = unhandled_rejections w.
Proof.
  intros Hp _ Hs w'. subst w'. unfold Command. run_handler. rewrite Hp.
  cbn. rewrite Hs. cbn. repeat split.
Qed.

Lemma submit_saves_parsed_value_witness :
  let w := mkWorld (str "editor") false (Data_value initialTroubleshootingData)
             (mkStorage None false false) [] [] 0 [] [] in
  Command (run (handleSubmit handleSave (str "{}") ) w)
  = Screen_FlowView false (JObject []).
Proof.
  intros w.
  apply (proj1 (proj2 (submit_saves_parsed_value (str "{}") (JObject []) w
                         eq_refl eq_refl eq_refl))).
Defined.

(** X6: a submission whose text parses but whose write is rejected fails
    silently: the state already holds the parsed value, [pop] is called,
    the tab and the stored item are as before, no notification at all is
    added, and the rejection is left unhandled.  If the editor was shown,
    it still is, now over the parsed value. *)
Theorem submit_rejected_write_is_silent (jsonData : jsstring) (v : value)
    (w : World) :
  JSON_parse jsonData = Some v ->
  setItem_rejects (storage w) = true ->
  let w' := run (handleSubmit handleSave jsonData) w in
  completion (handleSubmit handleSave jsonData) w = Normal tt /\
  troubleshootingData w' = v /\
  toasts w' = toasts w /\
  storage w' = storage w /\
  activeTab w' = activeTab w /\
  pops w' = S (pops w) /\
  unhandled_rejections w' = unhandled_rejections w ++ [Error_LocalStorage] /\
  (activeTab w = str "editor" -> Command w' = Screen_EditorView v).
Proof.
  intros Hp Hs w'. subst w'. unfold Command. run_handler. rewrite Hp.
  cbn. rewrite Hs. cbn. repeat split. intros ->. reflexivity.
Qed.

Lemma submit_rejected_write_is_silent_witness :
  let w := mkWorld (str "editor") false (Data_value initialTroubleshootingData)
             (mkStorage None false true) [] [] 0 [] [] in
  toasts (run (handleSubmit handleSave (str "{}")) w) = [] /\
  Command (run (handleSubmit handleSave (str "{}")) w)
  = Screen_EditorView (JObject []).
Proof.
  intros w.
  pose proof (submit_rejected_write_is_silent (str "{}") (JObject []) w
                eq_refl eq_refl) as (_ & _ & Ht & _ & _ & _ & _ & Hc).
  split; [exact Ht | apply Hc; reflexivity].
Defined.

(** X7: [handleSubmit] lets no error out, whatever the text and whatever
    [onSave] does: a parse error is caught, and a rejection of [onSave] is
    not awaited. *)
Theorem handleSubmit_completes_normally (onSave : value -> M unit)
    (jsonData : jsstring) (w : World) :
  completion (handleSubmit onSave jsonData) w = Normal tt.
Proof.
  run_handler. destruct (JSON_parse jsonData) as [v|]; [|reflexivity].
  cbn. destruct (onSave v w) as [[[]|e] w']; reflexivity.
Qed.

(** X8: opening the editor and submitting its text unchanged saves the
    flow that was there: the editor opens over the current value, and
    after the submission the state is that value again, the item holds its
    compact serialization and [Command] shows the flow view. *)
Theorem submit_unchanged_text (w : World) :
  plain (troubleshootingData w) = true ->
  jsstring_eqb (str "editor") (activeTab w) = false ->
  setItem_rejects (storage w) = false ->
  let w1 := run (Dropdown_onChange (str "editor")) w in
  let w2 := run (Action_SubmitForm handleSave) w1 in
  Command w1 = Screen_EditorView (troubleshootingData w) /\
  form_jsonData w1 = JSON_stringify 2 (troubleshootingData w) /\
  troubleshootingData w2 = troubleshootingData w /\
  item (storage w2) = Some (JSON_stringify 0 (troubleshootingData w)) /\
  Command w2 = Screen_FlowView (isLoading w) (troubleshootingData w).
Proof.
  intros Hp Ht Hs w1 w2. subst w2 w1.
  unfold Command, Dropdown_onChange, EditorView_defaultValue.
  run_handler. rewrite Ht. cbn.
  rewrite JSON_parse_JSON_stringify by exact Hp. cbn. rewrite Hs. cbn.
  repeat split.
Qed.

Lemma submit_unchanged_text_witness :
  let w := mkWorld (str "flow") false (Data_value initialTroubleshootingData)
             (mkStorage None false false) [] [] 0 [] [] in
  troubleshootingData
    (run (Action_SubmitForm handleSave) (run (Dropdown_onChange (str "editor")) w))
  = Data_value initialTroubleshootingData.
Proof.
  intros w.
  apply (proj1 (proj2 (proj2 (submit_unchanged_text w eq_refl eq_refl eq_refl)))).
Defined.

(** X9: an edit survives a restart: when the submitted text parses to a
    value without numbers and the storage lets the write and the later
    read through, a fresh mount followed by [loadData] holds that value
    and shows no notification. *)
Theorem edit_then_restart (jsonData : jsstring) (v : value) (w : World) :
  JSON_parse jsonData = Some v ->
  number_free v = true ->
  setItem_rejects (storage w) = false ->
  getItem_rejects (storage w) = false ->
  let w' := run loadData
              (mount (storage (run (handleSubmit handleSave jsonData) w))) in
  troubleshootingData w' = v /\ toasts w' = [].
Proof.
  intros Hp Hn Hs Hg w'. subst w'.
  assert (Hplain := JSON_parse_plain jsonData v Hp Hn).
  assert (Hst : storage (run (handleSubmit handleSave jsonData) w)
                = mkStorage (Some (JSON_stringify 0 v)) false false).
  { run_handler. rewrite Hp. cbn.
    rewrite Hs. cbn. rewrite Hg. reflexivity. }
  rewrite Hst, loadData_cases. unfold mount. cbn [storage toasts item getItem_rejects].
  rewrite JSON_stringify_not_empty, JSON_parse_JSON_stringify by exact Hplain.
  cbn. auto.
Qed.

Lemma edit_then_restart_witness :
  let w := mount (mkStorage None false false) in
  troubleshootingData
    (run loadData
       (mount (storage (run (handleSubmit handleSave
                               (str " [ true, [ null ] ] ")) w))))
  = JArray [JBool true; JArray [JNull]].
Proof.
  intros w.
  apply (proj1 (edit_then_restart
                  (str " [ true, [ null ] ] ")
                  (JArray [JBool true; JArray [JNull]])
                  w eq_refl eq_refl eq_refl eq_refl)).
Defined.

(** X10: a text that is empty or made of white space only is rejected like
    any other invalid text: one failure notification, and nothing saved,
    popped or switched. *)
Theorem blank_text_is_rejected (onSave : value -> M unit) (jsonData : jsstring)
    (w : World) :
  forallb is_ws jsonData = true ->
  run (handleSubmit onSave jsonData) w =
    mkWorld (activeTab w) (isLoading w) (troubleshootingData w) (storage w)
      (toasts w ++ [mkToast Toast_Failure (str "Invalid JSON")
                                          (str "Please check your syntax.")])
      (console_errors w ++ [str "Invalid JSON:"])
      (pops w) (unhandled_rejections w) (form_jsonData w).
Proof.
  intros H. run_handler. rewrite (JSON_parse_blank jsonData H). reflexivity.
Qed.

Lemma blank_text_is_rejected_witness :
  let w := mount (mkStorage None false false) in
  toasts (run (handleSubmit handleSave [10; 32; 32]) w)
  = [mkToast Toast_Failure (str "Invalid JSON") (str "Please check your syntax.")].
Proof.
  intros w. rewrite (blank_text_is_rejected handleSave [10; 32; 32] w eq_refl).
  reflexivity.
Defined.

(* ================================================================== *)
(** * Further properties: the flow view and the navigation *)

Lemma has_own_property_own {A : Type} (k : jsstring) (o : list (jsstring * A)) :
  has_own_property k o = true <-> exists a, own_property k o = Some a.
Proof.
  unfold has_own_property. induction o as [|[k' a'] o IH]; simpl.
  - split; [discriminate | intros [a Ha]; discriminate].
  - destruct (jsstring_eqb k k'); simpl; [|exact IH].
    split; [intros _; exists a'; reflexivity | reflexivity].
Qed.

Lemma own_property_In {A : Type} (k : jsstring) (a : A) (o : list (jsstring * A)) :
  own_property k o = Some a -> In (k, a) o.
Proof.
  induction o as [|[k' a'] o IH]; simpl; [discriminate|].
  destruct (jsstring_eqb k k') eqn:E.
  - apply jsstring_eqb_eq in E. intros H; inversion H; subst. left; reflexivity.
  - intros H. right. auto.
Qed.

Section FlowSteps.

Context {IconValue : Type}.
Variable Icon : jsstring -> option IconValue.
Variable Icon_ChevronRight : IconValue.

Lemma currentStep_own (g : TroubleshootingData) (stepId : jsstring)
    (st : TroubleshootingStepData) :
  own_property stepId g = Some st ->
  currentStep Icon Icon_ChevronRight g stepId =
    Returns (List_Items (question st) (str "Select an answer")
               (map (List_Item Icon Icon_ChevronRight) (answers st))).
Proof.
  intros H. unfold currentStep, TroubleshootingStep, Get. rewrite H. reflexivity.
Qed.

(** X11: once loading is over, a flow without a ["start"] key, the empty
    flow included, shows the "Invalid Flow Data" view. *)
Theorem FlowView_missing_start (g : TroubleshootingData) :
  ~ In (str "start") (map fst g) ->
  FlowView Icon Icon_ChevronRight false g =
    Returns (List_EmptyView (str "Invalid Flow Data")
      (str "Could not find a 'start' step. Check your data in the editor.")).
Proof.
  intros H. apply own_property_has in H.
  unfold FlowView, Get. rewrite H. reflexivity.
Qed.

(** On a flow of the declared type the root view does not throw, and while
    loading it is the loading indicator. *)
Lemma FlowView_typed (g : TroubleshootingData) (loading : bool) :
  FlowView Icon Icon_ChevronRight loading g <> Throws_TypeError /\
  FlowView Icon Icon_ChevronRight true g = Returns List_isLoading.
Proof.
  unfold FlowView, TroubleshootingStep, Get.
  destruct (own_property (str "start") g) as [st|]; cbn;
    destruct loading; split; (reflexivity || discriminate).
Qed.

(** One selection in a closed flow keeps every frame a key of the flow. *)
Lemma select_closed (g : TroubleshootingData) (frames : list jsstring) (i : nat) :
  closed g = true ->
  Forall (fun s => has_own_property s g = true) frames ->
  Forall (fun s => has_own_property s g = true)
         (select Icon Icon_ChevronRight g frames i).
Proof.
  intros Hc Hf. destruct frames as [|top frames]; [constructor|].
  inversion Hf as [|? ? Htop Hrest]; subst.
  apply has_own_property_own in Htop. destruct Htop as [st Hst].
  unfold select. rewrite (currentStep_own g top st Hst).
  destruct (nth_error (map (List_Item Icon Icon_ChevronRight) (answers st)) i)
    as [it|] eqn:Hi; [|exact Hf].
  apply nth_error_In, in_map_iff in Hi. destruct Hi as (a & <- & Ha).
  cbn [actions List_Item].
  destruct (selectAnswer a) as [n|c] eqn:Hsel; [|exact Hf].
  constructor; [|exact Hf].
  unfold closed in Hc. rewrite forallb_forall in Hc.
  specialize (Hc _ (own_property_In _ _ _ Hst)). cbn [snd] in Hc.
  rewrite forallb_forall in Hc. specialize (Hc a Ha).
  unfold resolves in Hc. unfold selectAnswer in Hsel.
  destruct (nextId a) as [m|]; [|discriminate].
  destruct (truthy_string m); [|discriminate].
  inversion Hsel; subst. exact Hc.
Qed.

(** X13: in a flow without dangling references, whatever answers the user
    selects from the ["start"] step on, every frame of the navigation stack
    is a key of the flow, and the frame on top renders the items of its
    step: neither the end-of-flow view nor an error is ever reached. *)
Theorem closed_flow_navigation (g : TroubleshootingData) (choices : list nat) :
  closed g = true ->
  has_own_property (str "start") g = true ->
  let frames := fold_left (select Icon Icon_ChevronRight g) choices [str "start"] in
  Forall (fun s => has_own_property s g = true) frames /\
  exists top rest st,
    frames = top :: rest /\
    own_property top g = Some st /\
    currentStep Icon Icon_ChevronRight g top =
      Returns (List_Items (question st) (str "Select an answer")
                 (map (List_Item Icon Icon_ChevronRight) (answers st))).
Proof.
  intros Hc Hs frames.
  assert (Hinv : Forall (fun s => has_own_property s g = true) frames
                 /\ frames <> []).
  { subst frames.
    assert (H0 : Forall (fun s => has_own_property s g = true) [str "start"]
                 /\ [str "start"] <> [])
      by (split; [constructor; [exact Hs | constructor] | discriminate]).
    revert H0. generalize [str "start"] as fs.
    induction choices as [|i choices IH]; intros fs [Hf Hne]; [split; assumption|].
    simpl. apply IH. split; [apply select_closed; assumption|].
    destruct fs as [|top fs]; [congruence|].
    unfold select.
    destruct (currentStep Icon Icon_ChevronRight g top) as [[| |? ? items]|];
      try discriminate.
    destruct (nth_error items i) as [it|]; [|discriminate].
    destruct (actions it); discriminate. }
  destruct Hinv as [Hf Hne]. split; [exact Hf|].
  destruct frames as [|top rest]; [congruence|].
  inversion Hf as [|? ? Htop _]; subst.
  apply has_own_property_own in Htop. destruct Htop as [st Hst].
  exists top, rest, st. repeat split; [exact Hst | apply currentStep_own; exact Hst].
Qed.

(** X14: selecting an answer whose [nextId] is neither a key of the flow
    nor a property name of [Object.prototype] pushes a frame that renders
    the end-of-flow view, and from that frame no selection changes the
    stack. *)
Theorem dangling_reference_ends_flow (g : TroubleshootingData)
    (top n : jsstring) (frames : list jsstring)
    (st : TroubleshootingStepData) (a : Answer) (i : nat) :
  own_property top g = Some st ->
  nth_error (answers st) i = Some a ->
  nextId a = Some n ->
  n <> [] ->
  ~ In n (map fst g) ->
  mem_string n Object_prototype_keys = false ->
  select Icon Icon_ChevronRight g (top :: frames) i = n :: top :: frames /\
  currentStep Icon Icon_ChevronRight g n =
    Returns (List_EmptyView (str "End of Flow")
                            (str "You've reached a final step.")) /\
  forall j, select Icon Icon_ChevronRight g (n :: top :: frames) j
            = n :: top :: frames.
Proof.
  intros Hst Ha Hn Hne Hk Hp.
  assert (Hend : currentStep Icon Icon_ChevronRight g n =
                 Returns (List_EmptyView (str "End of Flow")
                                         (str "You've reached a final step."))).
  { unfold currentStep, TroubleshootingStep, Get.
    apply own_property_has in Hk. rewrite Hk, Hp. reflexivity. }
  split; [|split; [exact Hend|]].
  - unfold select. rewrite (currentStep_own g top st Hst).
    rewrite nth_error_map, Ha. cbn [option_map actions List_Item].
    unfold selectAnswer. rewrite Hn. destruct n; [congruence | reflexivity].
  - intros j. unfold select. rewrite Hend. reflexivity.
Qed.

End FlowSteps.

(** ** The root view on the unchecked state *)

Lemma own_property_map {A B : Type} (f : A -> B) (k : jsstring)
    (o : list (jsstring * A)) :
  own_property k (map (fun p => (fst p, f (snd p))) o)
  = option_map f (own_property k o).
Proof.
  induction o as [|[k' a] o IH]; simpl; [reflexivity|].
  destruct (jsstring_eqb k k'); [reflexivity | exact IH].
Qed.

Section UncheckedState.

Context {IconValue : Type}.
Variable Icon_read : value -> option IconValue.
Variable Icon_ChevronRight : IconValue.
Variable Number_is_zero : jsstring -> bool.

Lemma List_Item_Answer_value (a : Answer) :
  Untyped.List_Item Icon_read Icon_ChevronRight Number_is_zero (Answer_value a)
  = Some (ListItem_value (List_Item (Icon_at_strings Icon_read) Icon_ChevronRight a)).
Proof.
  destruct a as [t n i]. unfold Answer_value, List_Item, ListItem_value,
    selectAnswer, symbolFor, Icon_at_strings. cbn [text nextId icon].
  destruct n as [[|c n]|], i as [[|d i]|]; reflexivity.
Qed.

Lemma map_List_Item_Answer_value (l : list Answer) :
  Untyped.map_List_Item Icon_read Icon_ChevronRight Number_is_zero
    (map Answer_value l)
  = Some (map ListItem_value (map (List_Item (Icon_at_strings Icon_read) Icon_ChevronRight) l)).
Proof.
  induction l as [|a l IH]; [reflexivity|].
  cbn [map Untyped.map_List_Item]. rewrite List_Item_Answer_value, IH.
  reflexivity.
Qed.

Lemma FlowView_Data_value (g : TroubleshootingData) (loading : bool) :
  Untyped.FlowView Icon_read Icon_ChevronRight Number_is_zero loading
    (Data_value g)
  = Render_value (FlowView (Icon_at_strings Icon_read) Icon_ChevronRight loading g).
Proof.
  unfold Untyped.FlowView, Untyped.read_start, Untyped.field, Data_value.
  rewrite own_property_map.
  unfold FlowView, TroubleshootingStep, Get.
  destruct (own_property (str "start") g) as [st|]; cbn [option_map].
  - unfold Untyped.TroubleshootingStep_body.
    cbn [Untyped.ToBoolean Step_value negb andb].
    destruct loading; [reflexivity|].
    change (Untyped.field "answers" (Step_value st))
      with (Some (JArray (map Answer_value (answers st)))).
    change (Untyped.field "question" (Step_value st))
      with (Some (JString (question st))).
    cbv iota. rewrite map_List_Item_Answer_value. reflexivity.
  - replace (mem_string (str "start") Object_prototype_keys) with false
      by reflexivity.
    destruct loading; reflexivity.
Qed.

End UncheckedState.

(** X12: [FlowView] on the state as [Command] hands it over, unchecked.  On
    a state that is a flow of the declared type it renders what the typed
    render gives, hence it does not throw there.  It throws on the state
    [null], and once loading is over it throws on every state whose
    ["start"] step is truthy and has no array under ["answers"]. *)
Theorem FlowView_on_unchecked_state {IconValue : Type}
    (Icon_read : value -> option IconValue) (Icon_ChevronRight : IconValue)
    (Number_is_zero : jsstring -> bool) :
  (forall g loading,
     Untyped.FlowView Icon_read Icon_ChevronRight Number_is_zero loading
       (Data_value g)
     = Render_value (FlowView (Icon_at_strings Icon_read)
                       Icon_ChevronRight loading g)) /\
  (forall g loading,
     Untyped.FlowView Icon_read Icon_ChevronRight Number_is_zero loading
       (Data_value g)
     <> Untyped.Throws_TypeError) /\
  (forall loading,
     Untyped.FlowView Icon_read Icon_ChevronRight Number_is_zero loading JNull
     = Untyped.Throws_TypeError) /\
  (forall data st,
     Untyped.field "start" data = Some st ->
     Untyped.ToBoolean Number_is_zero st = true ->
     (forall answers, Untyped.field "answers" st <> Some (JArray answers)) ->
     Untyped.FlowView Icon_read Icon_ChevronRight Number_is_zero false data
     = Untyped.Throws_TypeError).
Proof.
  split; [|split; [|split]].
  - intros g loading. apply FlowView_Data_value.
  - intros g loading. rewrite FlowView_Data_value.
    pose proof (proj1 (FlowView_typed (Icon_at_strings Icon_read)
                         Icon_ChevronRight g loading)) as H.
    destruct (FlowView (Icon_at_strings Icon_read)
                Icon_ChevronRight loading g) as [[| |]|];
      [discriminate | discriminate | discriminate | congruence].
  - reflexivity.
  - intros data st Hs Ht Ha.
    unfold Untyped.FlowView, Untyped.read_start.
    destruct data; try discriminate. rewrite Hs.
    unfold Untyped.TroubleshootingStep_body. rewrite Ht. cbn [negb andb].
    destruct (Untyped.field "answers" st) as [[ | | | |answers| ]|];
      try reflexivity.
    destruct (Ha answers eq_refl).
Qed.

Lemma FlowView_on_unchecked_state_witness :
  let data := JObject [ (str "start",
                         JObject [ (str "id", JString (str "start"));
                                   (str "question", JString (str "q")) ]) ] in
  Untyped.FlowView (fun _ : value => @None nat) 0%nat (fun _ => false) false data
  = Untyped.Throws_TypeError.
Proof.
  intros data.
  refine (proj2 (proj2 (proj2 (FlowView_on_unchecked_state
                                 (fun _ => None) 0%nat (fun _ => false))))
            data
            (JObject [ (str "id", JString (str "start"));
                       (str "question", JString (str "q")) ])
            eq_refl eq_refl _).
  intros answers. discriminate.
Defined.

Lemma FlowView_missing_start_witness :
  FlowView (fun _ : jsstring => @None nat) 0%nat false [] =
    Returns (List_EmptyView (str "Invalid Flow Data")
      (str "Could not find a 'start' step. Check your data in the editor.")).
Proof.
  apply (FlowView_missing_start (fun _ => None) 0%nat []). intros [].
Defined.

Lemma closed_flow_navigation_witness :
  Forall (fun s => has_own_property s initialTroubleshootingData = true)
    (fold_left (select (fun _ : jsstring => @None nat) 0%nat
                  initialTroubleshootingData)
       [0; 2; 0; 1]%nat [str "start"]).
Proof.
  apply (proj1 (closed_flow_navigation (fun _ => None) 0%nat
                  initialTroubleshootingData [0; 2; 0; 1]%nat eq_refl eq_refl)).
Defined.

Lemma dangling_reference_ends_flow_witness :
  let g := [ (str "start",
              mkStep (str "start") (str "Does it start?")
                [ mkAnswer (str "No") (Some (str "does-not-exist")) None ]) ] in
  select (fun _ : jsstring => @None nat) 0%nat g [str "start"] 0
  = [str "does-not-exist"; str "start"].
Proof.
  intros g.
  refine (proj1 (dangling_reference_ends_flow (fun _ => None) 0%nat g
                   (str "start") (str "does-not-exist") []
                   (mkStep (str "start") (str "Does it start?")
                      [ mkAnswer (str "No") (Some (str "does-not-exist")) None ])
                   (mkAnswer (str "No") (Some (str "does-not-exist")) None) 0
                   eq_refl eq_refl eq_refl _ _ _)).
  - discriminate.
  - apply own_property_has. reflexivity.
  - reflexivity.
Defined.

(* ================================================================== *)
(** * Further properties: the texts of the editor and of the storage *)

(** X15: at every indentation, the text [JSON.stringify] writes for a value
    without numbers parses back to that value; this holds of the compact
    text [handleSave] stores and of the indented text the editor shows, so
    both parse to the same value. *)
Theorem stringify_then_parse (space : nat) (v : value) :
  plain v = true ->
  JSON_parse (JSON_stringify space v) = Some v /\
  JSON_parse (JSON_stringify 0 v) = JSON_parse (EditorView_defaultValue v).
Proof.
  intros H. unfold EditorView_defaultValue.
  rewrite !JSON_parse_JSON_stringify by exact H. split; reflexivity.
Qed.

Lemma stringify_then_parse_witness :
  JSON_parse (JSON_stringify 7
                (JObject [ ([50], JArray [JString [34; 92; 10; 55357; 56832; 56832]]);
                           (str "a", JObject []) ]))
  = Some (JObject [ ([50], JArray [JString [34; 92; 10; 55357; 56832; 56832]]);
                    (str "a", JObject []) ]).
Proof.
  apply (proj1 (stringify_then_parse 7
           (JObject [ ([50], JArray [JString [34; 92; 10; 55357; 56832; 56832]]);
                      (str "a", JObject []) ]) eq_refl)).
Defined.

(** X16: whatever the editor has accepted can be edited again: if a text
    parses to a value without numbers, the text the editor then opens with
    parses to that same value. *)
Theorem reopened_editor_text (t : jsstring) (v : value) :
  JSON_parse t = Some v ->
  number_free v = true ->
  JSON_parse (EditorView_defaultValue v) = Some v.
Proof.
  intros Hp Hn. unfold EditorView_defaultValue.
  apply JSON_parse_JSON_stringify. exact (JSON_parse_plain t v Hp Hn).
Qed.

Lemma reopened_editor_text_witness :
  JSON_parse (EditorView_defaultValue (JArray [JBool true; JArray [JNull]]))
  = Some (JArray [JBool true; JArray [JNull]]).
Proof.
  apply (reopened_editor_text (str " [ true, [ null ] ] ")
           (JArray [JBool true; JArray [JNull]]) eq_refl eq_refl).
Defined.

(** X17: two flows with the same editor text are the same flow: the text
    shown by the editor determines the flow, key by key and answer by
    answer. *)
Theorem editor_text_determines_flow (g g' : TroubleshootingData) :
  property_order (map fst g) = true ->
  property_order (map fst g') = true ->
  EditorView_defaultValue (Data_value g) = EditorView_defaultValue (Data_value g') ->
  g = g'.
Proof.
  intros H H' E. apply (f_equal JSON_parse) in E.
  unfold EditorView_defaultValue in E.
  rewrite !JSON_parse_JSON_stringify in E by (apply plain_Data_value; assumption).
  apply Data_value_inj. congruence.
Qed.

Lemma editor_text_determines_flow_witness :
  firstn 2 initialTroubleshootingData = firstn 2 initialTroubleshootingData.
Proof.
  exact (editor_text_determines_flow (firstn 2 initialTroubleshootingData)
           (firstn 2 initialTroubleshootingData) eq_refl eq_refl eq_refl).
Defined.

Lemma own_property_app {A : Type} (k : jsstring) (o o' : list (jsstring * A)) :
  own_property k (o ++ o') =
    match own_property k o with
    | Some a => Some a
    | None => own_property k o'
    end.
Proof.
  induction o as [|[k' a'] o IH]; simpl; [reflexivity|].
  destruct (jsstring_eqb k k'); [reflexivity | exact IH].
Qed.

Lemma has_own_property_none {A : Type} (k : jsstring) (o : list (jsstring * A)) :
  has_own_property k o = false -> own_property k o = None.
Proof.
  intros H. destruct (own_property k o) as [a|] eqn:E; [|reflexivity].
  assert (has_own_property k o = true) by (apply has_own_property_own; eauto).
  congruence.
Qed.

Lemma jsstring_eqb_sym (a b : jsstring) : jsstring_eqb a b = jsstring_eqb b a.
Proof.
  destruct (jsstring_eqb a b) eqn:E.
  - apply jsstring_eqb_eq in E. subst. symmetry. apply jsstring_eqb_refl.
  - apply jsstring_eqb_neq in E. symmetry. apply jsstring_eqb_neq. congruence.
Qed.

Lemma jsstring_eqb_trans_false (a b c : jsstring) :
  jsstring_eqb a b = true -> jsstring_eqb c b = jsstring_eqb c a.
Proof. intros E. apply jsstring_eqb_eq in E. subst. reflexivity. Qed.

(** Reading after [CreateDataProperty]: the name just defined reads as the
    new value, every other name as before. *)
Lemma own_property_CreateDataProperty {A : Type} (o : list (jsstring * A))
    (k k' : jsstring) (a : A) :
  own_property k' (CreateDataProperty o k a) =
    if jsstring_eqb k' k then Some a else own_property k' o.
Proof.
  unfold CreateDataProperty. destruct (has_own_property k o) eqn:Hown.
  - induction o as [|[k0 a0] o IH]; [discriminate|].
    unfold has_own_property in Hown. simpl in Hown. simpl.
    destruct (jsstring_eqb k k0) eqn:E0; simpl.
    + rewrite (jsstring_eqb_trans_false k k0 k' E0).
      destruct (jsstring_eqb k' k); reflexivity.
    + simpl in Hown. rewrite IH by exact Hown.
      destruct (jsstring_eqb k' k0) eqn:E1; [|reflexivity].
      apply jsstring_eqb_eq in E1. subst k0.
      rewrite jsstring_eqb_sym, E0. reflexivity.
  - pose proof (has_own_property_none k o Hown) as Hnone.
    destruct (array_index k) as [i|].
    + clear Hown. induction o as [|[k0 a0] o IH]; simpl.
      * destruct (jsstring_eqb k' k); reflexivity.
      * simpl in Hnone. destruct (jsstring_eqb k k0) eqn:E0; [discriminate|].
        assert (Hstep : own_property k' ((k, a) :: (k0, a0) :: o) =
                        if jsstring_eqb k' k then Some a
                        else if jsstring_eqb k' k0 then Some a0
                             else own_property k' o) by reflexivity.
        destruct (array_index k0) as [j|]; [destruct (j <? i)|];
          try exact Hstep.
        simpl. rewrite IH by exact Hnone.
        destruct (jsstring_eqb k' k0) eqn:E1; [|reflexivity].
        apply jsstring_eqb_eq in E1. subst k0.
        rewrite jsstring_eqb_sym, E0. reflexivity.
    + rewrite own_property_app. simpl.
      destruct (jsstring_eqb k' k) eqn:E.
      * apply jsstring_eqb_eq in E. subst k'. rewrite Hnone. reflexivity.
      * destruct (own_property k' o); reflexivity.
Qed.

Lemma fold_CreateDataProperty_last (ms : list (jsstring * value)) (k : jsstring) :
  own_property k
    (fold_left (fun o p => CreateDataProperty o (fst p) (snd p)) ms [])
  = own_property k (rev ms).
Proof.
  assert (H : forall acc,
    own_property k
      (fold_left (fun o p => CreateDataProperty o (fst p) (snd p)) ms acc)
    = match own_property k (rev ms) with
      | Some a => Some a
      | None => own_property k acc
      end).
  { induction ms as [|[k0 a0] ms IH]; intros acc; [reflexivity|].
    simpl fold_left. rewrite IH. simpl rev. rewrite own_property_app.
    destruct (own_property k (rev ms)); [reflexivity|].
    rewrite own_property_CreateDataProperty. simpl.
    destruct (jsstring_eqb k k0); reflexivity. }
  rewrite H. destruct (own_property k (rev ms)); reflexivity.
Qed.

(** X18: when the text of an object names a key more than once, the object
    [JSON.parse] builds holds, under every key, the value of the last
    member with that key: a step defined twice in the editor is read as
    its later definition. *)
Theorem last_member_wins (fuel : nat) (s r : jsstring)
    (ms : list (jsstring * value)) :
  starts_with 125 (skip_ws s) = None ->
  parse_members fuel s = Parsed ms r ->
  exists o,
    parse_value (S fuel) (123 :: s) = Parsed (JObject o) r /\
    forall k, own_property k o = own_property k (rev ms).
Proof.
  intros Hne Hms. rewrite parse_value_object, Hne, Hms.
  eexists. split; [reflexivity|]. intros k. apply fold_CreateDataProperty_last.
Qed.

Lemma last_member_wins_witness :
  let s := [34; 97; 34; 58; 49; 44; 34; 98; 34; 58; 51; 44;
            34; 97; 34; 58; 50; 125] in
  exists o,
    parse_value 9 (123 :: s) = Parsed (JObject o) [] /\
    own_property [97] o = Some (JNumber [50]).
Proof.
  intros s.
  destruct (last_member_wins 8 s []
              [([97], JNumber [49]); ([98], JNumber [51]); ([97], JNumber [50])]
              eq_refl eq_refl) as (o & Ho & Hk).
  exists o. split; [exact Ho | exact (Hk [97])].
Defined.

(** X19: the flow view keeps no record of the steps visited: when an answer
    of a step leads back to that step, each selection of it pushes one more
    frame, without bound. *)
Theorem self_reference_grows_stack {IconValue : Type}
    (Icon : jsstring -> option IconValue) (Icon_ChevronRight : IconValue)
    (g : TroubleshootingData) (top : jsstring)
    (st : TroubleshootingStepData) (a : Answer) (i n : nat) :
  own_property top g = Some st ->
  nth_error (answers st) i = Some a ->
  nextId a = Some top ->
  top <> [] ->
  fold_left (select Icon Icon_ChevronRight g) (repeat i n) [top]
  = repeat top (S n).
Proof.
  intros Hst Ha Hn Hne.
  assert (Hsel : forall frames,
            select Icon Icon_ChevronRight g (top :: frames) i
            = top :: top :: frames).
  { intros frames. unfold select. rewrite (currentStep_own Icon Icon_ChevronRight g top st Hst).
    rewrite nth_error_map, Ha. cbn [option_map actions List_Item].
    unfold selectAnswer. rewrite Hn. destruct top; [congruence | reflexivity]. }
  assert (H : forall n m,
            fold_left (select Icon Icon_ChevronRight g) (repeat i n)
              (repeat top (S m))
            = repeat top (S (n + m))).
  { clear n. induction n as [|n IH]; intros m; [reflexivity|].
    cbn [repeat fold_left]. rewrite Hsel.
    change (top :: top :: repeat top m) with (repeat top (S (S m))).
    rewrite IH, Nat.add_succ_r. reflexivity. }
  specialize (H n 0%nat). rewrite Nat.add_0_r in H. exact H.
Qed.

Lemma self_reference_grows_stack_witness :
  let g := [ (str "start",
              mkStep (str "start") (str "Did that help?")
                [ mkAnswer (str "No, again") (Some (str "start")) None ]) ] in
  fold_left (select (fun _ : jsstring => @None nat) 0%nat g) (repeat 0%nat 5)
    [str "start"]
  = repeat (str "start") 6.
Proof.
  intros g.
  refine (self_reference_grows_stack (fun _ => None) 0%nat g (str "start")
            (mkStep (str "start") (str "Did that help?")
               [ mkAnswer (str "No, again") (Some (str "start")) None ])
            (mkAnswer (str "No, again") (Some (str "start")) None) 0 5
            eq_refl eq_refl eq_refl _).
  discriminate.
Defined.
